(** * LuminaText history service: a shallow embedding and its properties

    The development follows [services/historyService.ts]: the five exported
    operations ([saveTranscription], [getTranscriptionHistory],
    [deleteTranscription], [clearAllHistory], [downloadTranscription]) are
    written in a small state-and-exception monad over a model of the browser
    facilities they call ([localStorage], [JSON], [console], the DOM).

    - [JS]: JavaScript strings as sequences of UTF-16 code units, JSON
      values, [JSON.stringify] and [JSON.parse].
    - [Browser]: the world the service runs in, and its primitives; any
      of them may throw, as the surroundings of a call decide.
    - [HistoryService]: the service itself, and the vocabulary of the
      statements (the list a store holds, runs of operations).
    - [HistoryPage], [TranscribePage]: the state and the handlers of the
      two pages that call the service.
    - [Samples], [PageSamples]: concrete worlds and results.
    - Sections [JSONFacts] (printing then parsing gives the value back,
      the parser's fuel is enough), [ServiceFacts] (each operation, case
      by case) and [Claims]; then what else the service and the pages
      do. *)

From Stdlib Require Import NArith String Ascii Decimal.
From Stdlib Require DecimalN.
From stdpp Require Import gmap list.

Local Open Scope N_scope.

(** ** JavaScript strings and JSON *)

Module JS.

(** A JavaScript string is a sequence of UTF-16 code units; [length] and
    [substring] count code units. *)
Definition jsstring := list N.

(** A literal of the source text, unit by unit. *)
Definition js (s : string) : jsstring :=
  map N_of_ascii (list_ascii_of_string s).

(** [s.substring(start, end)] for non-negative integer arguments: both are
    clamped to the length and swapped when [start > end]. *)
Definition substring (s : jsstring) (from to : nat) : jsstring :=
  let a := Nat.min from (length s) in
  let b := Nat.min to (length s) in
  let lo := Nat.min a b in
  let hi := Nat.max a b in
  take (hi - lo) (drop lo s).

(** Decimal digits of a non-negative integer, as [Number::toString] prints
    them. *)
Fixpoint uint_units (d : Decimal.uint) : jsstring :=
  match d with
  | Nil => []
  | D0 d => 48 :: uint_units d
  | D1 d => 49 :: uint_units d
  | D2 d => 50 :: uint_units d
  | D3 d => 51 :: uint_units d
  | D4 d => 52 :: uint_units d
  | D5 d => 53 :: uint_units d
  | D6 d => 54 :: uint_units d
  | D7 d => 55 :: uint_units d
  | D8 d => 56 :: uint_units d
  | D9 d => 57 :: uint_units d
  end.

Definition Number_toString (n : N) : jsstring := uint_units (N.to_uint n).

(** *** JSON values

    Objects keep their members in source order; a number keeps its token
    (its value as a double is never inspected by the service). *)
#[local] Set Warnings "-register-all".
Inductive json : Type :=
  | JNull
  | JBool (b : bool)
  | JNum (token : jsstring)
  | JStr (s : jsstring)
  | JArr (elems : list json)
  | JObj (members : list (jsstring * json)).

(** Surrogate code units. *)
Definition is_lead (c : N) : bool := (55296 <=? c) && (c <=? 56319).
Definition is_trail (c : N) : bool := (56320 <=? c) && (c <=? 57343).

(** *** JSON.stringify *)

Definition hex_digit (n : N) : N :=
  if n <? 10 then 48 + n else 87 + n.

(** [\uXXXX], lower-case hexadecimal. *)
Definition unicode_escape (c : N) : jsstring :=
  [92; 117; hex_digit (c / 4096 mod 16); hex_digit (c / 256 mod 16);
   hex_digit (c / 16 mod 16); hex_digit (c mod 16)].

(** One code unit that is not the lead of a surrogate pair. *)
Definition quote_unit (c : N) : jsstring :=
  if c =? 8 then [92; 98]
  else if c =? 9 then [92; 116]
  else if c =? 10 then [92; 110]
  else if c =? 12 then [92; 102]
  else if c =? 13 then [92; 114]
  else if c =? 34 then [92; 34]
  else if c =? 92 then [92; 92]
  else if (c <? 32) || is_trail c then unicode_escape c
  else [c].

(** The body of [QuoteJSONString]: the string is read code point by code
    point, a surrogate pair is copied and a lone surrogate is escaped. *)
Fixpoint quote_units (s : jsstring) : jsstring :=
  match s with
  | [] => []
  | c :: s' =>
      if is_lead c then
        match s' with
        | d :: s'' =>
            if is_trail d then c :: d :: quote_units s''
            else unicode_escape c ++ quote_units s'
        | [] => unicode_escape c
        end
      else quote_unit c ++ quote_units s'
  end.

Definition QuoteJSONString (s : jsstring) : jsstring :=
  34 :: quote_units s ++ [34].

(** No indentation is requested, so no white space is produced. The two
    helpers print what follows the opening bracket or brace. *)
Definition stringify_elements (f : json -> jsstring)
  : list json -> jsstring :=
  fix elements (l : list json) : jsstring :=
    match l with
    | [] => [93]
    | x :: l' =>
        f x ++
        match l' with
        | [] => [93]
        | _ :: _ => 44 :: elements l'
        end
    end.

Definition stringify_members (f : json -> jsstring)
  : list (jsstring * json) -> jsstring :=
  fix members (m : list (jsstring * json)) : jsstring :=
    match m with
    | [] => [125]
    | (k, x) :: m' =>
        QuoteJSONString k ++ 58 :: f x ++
        match m' with
        | [] => [125]
        | _ :: _ => 44 :: members m'
        end
    end.

Fixpoint JSON_stringify (v : json) : jsstring :=
  match v with
  | JNull => js "null"
  | JBool true => js "true"
  | JBool false => js "false"
  | JNum t => t
  | JStr s => QuoteJSONString s
  | JArr l => 91 :: stringify_elements JSON_stringify l
  | JObj m => 123 :: stringify_members JSON_stringify m
  end.

(** *** JSON.parse *)

Definition is_ws (c : N) : bool :=
  (c =? 32) || (c =? 9) || (c =? 10) || (c =? 13).

Fixpoint skip_ws (s : jsstring) : jsstring :=
  match s with
  | c :: s' => if is_ws c then skip_ws s' else s
  | [] => []
  end.

Definition is_digit (c : N) : bool := (48 <=? c) && (c <=? 57).

Definition hex_value (c : N) : option N :=
  if is_digit c then Some (c - 48)
  else if (97 <=? c) && (c <=? 102) then Some (c - 87)
  else if (65 <=? c) && (c <=? 70) then Some (c - 55)
  else None.

(** The characters of a string literal after its opening quote, up to and
    including the closing quote. *)
Fixpoint parse_chars (s : jsstring) : option (jsstring * jsstring) :=
  match s with
  | [] => None
  | c :: s' =>
      if c =? 34 then Some ([], s')
      else if c =? 92 then
        match s' with
        | [] => None
        | e :: s'' =>
            let simple (u : N) :=
              match parse_chars s'' with
              | Some (x, r) => Some (u :: x, r)
              | None => None
              end in
            if e =? 34 then simple 34
            else if e =? 92 then simple 92
            else if e =? 47 then simple 47
            else if e =? 98 then simple 8
            else if e =? 102 then simple 12
            else if e =? 110 then simple 10
            else if e =? 114 then simple 13
            else if e =? 116 then simple 9
            else if e =? 117 then
              match s'' with
              | h1 :: h2 :: h3 :: h4 :: s4 =>
                  match hex_value h1, hex_value h2, hex_value h3, hex_value h4 with
                  | Some a, Some b, Some c', Some d =>
                      match parse_chars s4 with
                      | Some (x, r) =>
                          Some (4096 * a + 256 * b + 16 * c' + d :: x, r)
                      | None => None
                      end
                  | _, _, _, _ => None
                  end
              | _ => None
              end
            else None
        end
      else if c <? 32 then None
      else
        match parse_chars s' with
        | Some (x, r) => Some (c :: x, r)
        | None => None
        end
  end.

(** [strip_prefix p s] is what follows [p] in [s], when [s] starts with
    [p]. *)
Fixpoint strip_prefix (p s : jsstring) : option jsstring :=
  match p, s with
  | [], _ => Some s
  | a :: p', b :: s' => if a =? b then strip_prefix p' s' else None
  | _ :: _, [] => None
  end.

(** A maximal run of decimal digits. *)
Fixpoint scan_digits (s : jsstring) : jsstring * jsstring :=
  match s with
  | c :: s' =>
      if is_digit c then
        let '(d, r) := scan_digits s' in (c :: d, r)
      else ([], s)
  | [] => ([], [])
  end.

(** One or more digits. *)
Definition scan_digits1 (s : jsstring) : option (jsstring * jsstring) :=
  match scan_digits s with
  | ([], _) => None
  | (d, r) => Some (d, r)
  end.

(** The number grammar: an optional minus sign; an integer part that is
    either a single zero or starts with a non-zero digit; an optional
    fraction (a dot and at least one digit); an optional exponent ([e] or
    [E], an optional sign, at least one digit). *)
Definition scan_int (s : jsstring) : option (jsstring * jsstring) :=
  match s with
  | c :: s' =>
      if c =? 48 then Some ([48], s')
      else if is_digit c then
        let '(d, r) := scan_digits s' in Some (c :: d, r)
      else None
  | [] => None
  end.

Definition scan_frac (s : jsstring) : option (jsstring * jsstring) :=
  match s with
  | c :: s' =>
      if c =? 46 then
        match scan_digits1 s' with
        | Some (d, r) => Some (46 :: d, r)
        | None => None
        end
      else Some ([], s)
  | [] => Some ([], [])
  end.

Definition scan_exp (s : jsstring) : option (jsstring * jsstring) :=
  match s with
  | c :: s' =>
      if (c =? 101) || (c =? 69) then
        match s' with
        | g :: s'' =>
            if (g =? 43) || (g =? 45) then
              match scan_digits1 s'' with
              | Some (d, r) => Some (c :: g :: d, r)
              | None => None
              end
            else
              match scan_digits1 s' with
              | Some (d, r) => Some (c :: d, r)
              | None => None
              end
        | [] => None
        end
      else Some ([], s)
  | [] => Some ([], [])
  end.

Definition scan_number (s : jsstring) : option (jsstring * jsstring) :=
  let '(sign, s1) :=
    match s with
    | c :: s' => if c =? 45 then ([45], s') else ([], s)
    | [] => ([], [])
    end in
  match scan_int s1 with
  | None => None
  | Some (i, s2) =>
      match scan_frac s2 with
      | None => None
      | Some (f, s3) =>
          match scan_exp s3 with
          | None => None
          | Some (e, s4) => Some (sign ++ i ++ f ++ e, s4)
          end
      end
  end.

(** Recursive descent; every call consumes input before it recurses, so
    the length of the text (plus one) is fuel enough, see [JSON_parse]. *)
Fixpoint parse_value (fuel : nat) (s : jsstring) {struct fuel}
  : option (json * jsstring) :=
  match fuel with
  | O => None
  | S n =>
      match skip_ws s with
      | [] => None
      | c :: r =>
          if c =? 34 then
            match parse_chars r with
            | Some (x, r') => Some (JStr x, r')
            | None => None
            end
          else if c =? 91 then
            match skip_ws r with
            | [] => None
            | d :: r' =>
                if d =? 93 then Some (JArr [], r')
                else
                  match parse_elements n r with
                  | Some (l, r'') => Some (JArr l, r'')
                  | None => None
                  end
            end
          else if c =? 123 then
            match skip_ws r with
            | [] => None
            | d :: r' =>
                if d =? 125 then Some (JObj [], r')
                else
                  match parse_members n r with
                  | Some (m, r'') => Some (JObj m, r'')
                  | None => None
                  end
            end
          else
            match strip_prefix (js "null") (c :: r) with
            | Some r' => Some (JNull, r')
            | None =>
            match strip_prefix (js "true") (c :: r) with
            | Some r' => Some (JBool true, r')
            | None =>
            match strip_prefix (js "false") (c :: r) with
            | Some r' => Some (JBool false, r')
            | None =>
            match scan_number (c :: r) with
            | Some (t, r') => Some (JNum t, r')
            | None => None
            end end end end
      end
  end

with parse_elements (fuel : nat) (s : jsstring) {struct fuel}
  : option (list json * jsstring) :=
  match fuel with
  | O => None
  | S n =>
      match parse_value n s with
      | None => None
      | Some (v, r) =>
          match skip_ws r with
          | [] => None
          | d :: r' =>
              if d =? 44 then
                match parse_elements n r' with
                | Some (l, r'') => Some (v :: l, r'')
                | None => None
                end
              else if d =? 93 then Some ([v], r')
              else None
          end
      end
  end

with parse_members (fuel : nat) (s : jsstring) {struct fuel}
  : option (list (jsstring * json) * jsstring) :=
  match fuel with
  | O => None
  | S n =>
      match skip_ws s with
      | [] => None
      | q :: r0 =>
          if q =? 34 then
            match parse_chars r0 with
            | None => None
            | Some (k, r1) =>
                match skip_ws r1 with
                | [] => None
                | c :: r2 =>
                    if c =? 58 then
                      match parse_value n r2 with
                      | None => None
                      | Some (v, r3) =>
                          match skip_ws r3 with
                          | [] => None
                          | d :: r4 =>
                              if d =? 44 then
                                match parse_members n r4 with
                                | Some (m, r5) => Some ((k, v) :: m, r5)
                                | None => None
                                end
                              else if d =? 125 then Some ([(k, v)], r4)
                              else None
                          end
                      end
                    else None
                end
            end
          else None
      end
  end.

(** [JSON.parse text]: [None] stands for the [SyntaxError] it throws. *)
Definition JSON_parse (text : jsstring) : option json :=
  match parse_value (S (length text)) text with
  | Some (v, r) =>
      match skip_ws r with
      | [] => Some v
      | _ :: _ => None
      end
  | None => None
  end.

(** What [parse_chars] does with a unit [c] put in front of the units it
    reads from [s]. *)
Definition read_after (c : N) (s : jsstring) : option (jsstring * jsstring) :=
  match parse_chars s with
  | Some (x, r) => Some (c :: x, r)
  | None => None
  end.

(** *** Well-formed values and the fuel they need

    A value is well formed when each of its numbers is a token of the
    number grammar; [size] bounds the fuel [parse_value] needs to read the
    value back. *)
Definition number_token (t : jsstring) : Prop :=
  scan_number t = Some (t, []).

Fixpoint wf (v : json) : Prop :=
  match v with
  | JNum t => number_token t
  | JArr l => fold_right (fun x acc => wf x /\ acc) True l
  | JObj m => fold_right (fun kv acc => wf (snd kv) /\ acc) True m
  | _ => True
  end.

Fixpoint size (v : json) : nat :=
  match v with
  | JArr l => S (fold_right (fun x acc => S (size x + acc)) O l)
  | JObj m => S (fold_right (fun kv acc => S (size (snd kv) + acc)) O m)
  | _ => 1%nat
  end.

(** What may follow a value inside a text: nothing, a comma, or a closing
    bracket or brace. *)
Definition delimited (rest : jsstring) : Prop :=
  match rest with
  | [] => True
  | c :: _ => c = 44 \/ c = 93 \/ c = 125
  end.

End JS.

Import JS.

(** ** The browser *)

Module Browser.

(** What a primitive may throw. *)
Inductive exn : Type :=
  | SyntaxError
  | TypeError
  | QuotaExceededError
  | SecurityError
  | DOMError.

(** The primitives of the platform that may fail for reasons outside the
    program (storage disabled or full, no document, ...). *)
Inductive primitive : Type :=
  | P_getItem
  | P_setItem
  | P_removeItem
  | P_createElement
  | P_Blob
  | P_createObjectURL
  | P_appendChild
  | P_click
  | P_removeChild.

Record Blob : Type := { blob_parts : list jsstring; blob_type : jsstring }.

(** An [<a>] element, with the two attributes the service sets. *)
Record Anchor : Type := { href : jsstring; download : jsstring }.

Inductive log_arg : Type :=
  | ArgString (s : jsstring)
  | ArgError (x : exn).

Inductive log_level : Type := LevelLog | LevelError.

(** The state the service can touch. *)
Record World : Type := {
  localStorage : gmap jsstring jsstring;
  console : list (log_level * jsstring * option log_arg);
  object_urls : list (jsstring * Blob);
  body : list Anchor;
  downloads : list (jsstring * Blob)
}.

Definition set_localStorage (m : gmap jsstring jsstring) (w : World) : World :=
  {| localStorage := m;
     console := console w;
     object_urls := object_urls w;
     body := body w;
     downloads := downloads w |}.

Definition set_console (c : list (log_level * jsstring * option log_arg))
    (w : World) : World :=
  {| localStorage := localStorage w;
     console := c;
     object_urls := object_urls w;
     body := body w;
     downloads := downloads w |}.

Definition set_object_urls (u : list (jsstring * Blob)) (w : World) : World :=
  {| localStorage := localStorage w;
     console := console w;
     object_urls := u;
     body := body w;
     downloads := downloads w |}.

Definition set_body (b : list Anchor) (w : World) : World :=
  {| localStorage := localStorage w;
     console := console w;
     object_urls := object_urls w;
     body := b;
     downloads := downloads w |}.

Definition set_downloads (d : list (jsstring * Blob)) (w : World) : World :=
  {| localStorage := localStorage w;
     console := console w;
     object_urls := object_urls w;
     body := body w;
     downloads := d |}.

(** What the surroundings decide during one call of the service: the
    clock, the random source, the URL handed out for a blob, and which
    primitives throw. *)
Record Env : Type := {
  Date_now : N;
  Math_random_base36 : jsstring;
  blob_url : jsstring;
  fault : primitive -> option exn
}.

Inductive outcome (A : Type) : Type :=
  | Val (a : A)
  | Throw (x : exn).
Arguments Val {A} a.
Arguments Throw {A} x.

(** Computations: read the surroundings, change the world, return or
    throw. *)
Definition M (A : Type) : Type := Env -> World -> outcome A * World.

Definition ret {A} (a : A) : M A := fun _ w => (Val a, w).

Definition bind {A B} (m : M A) (k : A -> M B) : M B :=
  fun e w =>
    match m e w with
    | (Val a, w') => k a e w'
    | (Throw x, w') => (Throw x, w')
    end.

Definition throw {A} (x : exn) : M A := fun _ w => (Throw x, w).

(** [try { m } catch (error) { h error }] *)
Definition try_catch {A} (m : M A) (h : exn -> M A) : M A :=
  fun e w =>
    match m e w with
    | (Val a, w') => (Val a, w')
    | (Throw x, w') => h x e w'
    end.

Definition ask : M Env := fun e w => (Val e, w).

Definition guard (p : primitive) : M unit :=
  fun e w =>
    match fault e p with
    | Some x => (Throw x, w)
    | None => (Val tt, w)
    end.

Declare Scope js_scope.
Delimit Scope js_scope with M.
Notation "'let!' x ':=' m 'in' k" := (bind m (fun x => k))
  (at level 10, x name, m at level 100, k at level 200) : js_scope.
Notation "m ';;' k" := (bind m (fun _ => k))
  (at level 100, k at level 200, right associativity) : js_scope.

Local Open Scope js_scope.

(** *** localStorage *)

Definition localStorage_getItem (key : jsstring) : M (option jsstring) :=
  guard P_getItem ;;
  fun _ w => (Val (localStorage w !! key), w).

(** A write that throws leaves the storage as it was. *)
Definition localStorage_setItem (key value : jsstring) : M unit :=
  guard P_setItem ;;
  fun _ w =>
    (Val tt, set_localStorage (<[key := value]> (localStorage w)) w).

Definition localStorage_removeItem (key : jsstring) : M unit :=
  guard P_removeItem ;;
  fun _ w =>
    (Val tt, set_localStorage (delete key (localStorage w)) w).

(** *** console *)

Definition console_write (lvl : log_level) (msg : jsstring)
    (arg : option log_arg) : M unit :=
  fun _ w => (Val tt, set_console (console w ++ [(lvl, msg, arg)]) w).

Definition console_log (msg : jsstring) (arg : option log_arg) : M unit :=
  console_write LevelLog msg arg.

Definition console_error (msg : jsstring) (x : exn) : M unit :=
  console_write LevelError msg (Some (ArgError x)).

(** [ToBoolean] of a string: only the empty string is falsy. *)
Definition truthy (s : jsstring) : bool :=
  match s with
  | [] => false
  | _ :: _ => true
  end.

(** *** JSON, with exceptions *)

Definition JSON_parse_ (text : jsstring) : M json :=
  match JSON_parse text with
  | Some v => ret v
  | None => throw SyntaxError
  end.

(** *** Values at run time

    What [JSON.parse] returns is typed [any]; the operations below are the
    ones the service applies to it. *)

(** [o.key]: the last member with that name wins, as in an object built by
    [JSON.parse]. *)
Fixpoint obj_get (m : list (jsstring * json)) (key : jsstring)
  : option json :=
  match m with
  | [] => None
  | (k, v) :: m' =>
      match obj_get m' key with
      | Some x => Some x
      | None => if decide (k = key) then Some v else None
      end
  end.

(** [v.key] for a name that is no built-in property: [undefined] ([None])
    on primitives and arrays, a [TypeError] on [null]. *)
Definition get_property (v : json) (key : jsstring) : M (option json) :=
  match v with
  | JNull => throw TypeError
  | JObj m => ret (obj_get m key)
  | _ => ret None
  end.

(** [x !== s] for a string [s]. *)
Definition strict_ne_string (x : option json) (s : jsstring) : bool :=
  match x with
  | Some (JStr t) => if decide (t = s) then false else true
  | _ => true
  end.

(** The strings produced by iterating a string: one per code point. *)
Fixpoint code_points (s : jsstring) : list jsstring :=
  match s with
  | [] => []
  | c :: s' =>
      if is_lead c then
        match s' with
        | d :: s'' =>
            if is_trail d then [c; d] :: code_points s''
            else [c] :: code_points s'
        | [] => [[c]]
        end
      else [c] :: code_points s'
  end.

(** [...v] inside an array literal: arrays and strings are iterable,
    anything else is a [TypeError]. *)
Definition iterate (v : json) : option (list json) :=
  match v with
  | JArr l => Some l
  | JStr s => Some (map JStr (code_points s))
  | _ => None
  end.

Definition spread (v : json) : M (list json) :=
  match iterate v with
  | Some l => ret l
  | None => throw TypeError
  end.

(** [l.slice(0, n)] *)
Definition slice0 (l : list json) (n : nat) : list json := take n l.

(** [l.filter(f)] for a callback that may throw. *)
Fixpoint filterM (f : json -> M bool) (l : list json) : M (list json) :=
  match l with
  | [] => ret []
  | x :: l' =>
      let! keep := f x in
      let! rest := filterM f l' in
      ret (if keep : bool then x :: rest else rest)
  end.

(** [v.filter(f)]: only arrays have the method. *)
Definition Array_filter (v : json) (f : json -> M bool) : M (list json) :=
  match v with
  | JArr l => filterM f l
  | _ => throw TypeError
  end.

(** *** The DOM, as far as a download link needs it *)

Definition document_createElement_a : M Anchor :=
  guard P_createElement ;;
  ret {| href := []; download := [] |}.

Definition new_Blob (parts : list jsstring) (type : jsstring) : M Blob :=
  guard P_Blob ;;
  ret {| blob_parts := parts; blob_type := type |}.

Definition URL_createObjectURL (b : Blob) : M jsstring :=
  guard P_createObjectURL ;;
  fun e w =>
    (Val (blob_url e), set_object_urls ((blob_url e, b) :: object_urls w) w).

Definition document_body_appendChild (a : Anchor) : M unit :=
  guard P_appendChild ;;
  fun _ w => (Val tt, set_body (body w ++ [a]) w).

Fixpoint url_lookup (urls : list (jsstring * Blob)) (u : jsstring)
  : option Blob :=
  match urls with
  | [] => None
  | (u', b) :: urls' => if decide (u' = u) then Some b else url_lookup urls' u
  end.

(** Clicking a link that carries a [download] attribute saves what its
    [href] designates under that name. *)
Definition element_click (a : Anchor) : M unit :=
  guard P_click ;;
  fun _ w =>
    match url_lookup (object_urls w) (href a) with
    | Some b => (Val tt, set_downloads (downloads w ++ [(download a, b)]) w)
    | None => (Val tt, w)
    end.

(** Nodes are told apart by their attributes, which is all the service
    gives them. *)
Fixpoint remove_first (a : Anchor) (l : list Anchor) : option (list Anchor) :=
  match l with
  | [] => None
  | b :: l' =>
      if decide (href a = href b ∧ download a = download b) then Some l'
      else option_map (cons b) (remove_first a l')
  end.

(** [removeChild] throws when the node is not a child. *)
Definition document_body_removeChild (a : Anchor) : M unit :=
  guard P_removeChild ;;
  fun _ w =>
    match remove_first a (body w) with
    | Some l => (Val tt, set_body l w)
    | None => (Throw DOMError, w)
    end.

End Browser.

Import Browser.
Local Open Scope js_scope.

(** ** The history service *)

Module HistoryService.

(** Modelled from the spec: the [TranscriptionResult] interface of
    [./api], which is imported but not part of the sources at hand; the
    spec gives its shape as [{ fileName, date, duration, fileSize, text }],
    the five fields [saveTranscription] reads, all strings. *)
Record TranscriptionResult : Type := {
  r_fileName : jsstring;
  r_date : jsstring;
  r_duration : jsstring;
  r_fileSize : jsstring;
  r_text : jsstring
}.

Record HistoryItem : Type := {
  id : jsstring;
  fileName : jsstring;
  date : jsstring;
  duration : jsstring;
  fileSize : jsstring;
  text : jsstring;
  preview : jsstring
}.

(** A [HistoryItem] as the object [JSON.stringify] sees, members in the
    order of the object literal. *)
Definition item_json (h : HistoryItem) : json :=
  JObj [ (js "id", JStr (id h));
         (js "fileName", JStr (fileName h));
         (js "date", JStr (date h));
         (js "duration", JStr (duration h));
         (js "fileSize", JStr (fileSize h));
         (js "text", JStr (text h));
         (js "preview", JStr (preview h)) ].

Definition STORAGE_KEY : jsstring := js "luminatext_history".

(** [result.text.substring(0, 150) + (result.text.length > 150 ? '...' : '')] *)
Definition make_preview (t : jsstring) : jsstring :=
  substring t 0 150 ++ (if (150 <? length t)%nat then js "..." else js "").

(** The object literal of [saveTranscription]; the id is
    [`${Date.now()}-${Math.random().toString(36).substring(2, 9)}`]. *)
Definition make_item (e : Env) (result : TranscriptionResult) : HistoryItem :=
  {| id := Number_toString (Date_now e) ++ js "-" ++
           substring (Math_random_base36 e) 2 9;
     fileName := r_fileName result;
     date := r_date result;
     duration := r_duration result;
     fileSize := r_fileSize result;
     text := r_text result;
     preview := make_preview (r_text result) |}.

(** Get all transcription history from localStorage. *)
Definition getTranscriptionHistory : M json :=
  try_catch
    (let! stored := localStorage_getItem STORAGE_KEY in
     match stored with
     | Some text => if truthy text then JSON_parse_ text else ret (JArr [])
     | None => ret (JArr [])
     end)
    (fun error =>
       console_error (js "Error loading transcription history:") error ;;
       ret (JArr [])).

(** Save a transcription result to localStorage. *)
Definition saveTranscription (result : TranscriptionResult) : M unit :=
  try_catch
    (let! existingHistory := getTranscriptionHistory in
     let! e := ask in
     let historyItem := make_item e result in
     (* Add new item at the beginning (most recent first) *)
     let! tail := spread existingHistory in
     let updatedHistory := item_json historyItem :: tail in
     (* Keep only the last 100 transcriptions to prevent storage bloat *)
     let limitedHistory := slice0 updatedHistory 100 in
     localStorage_setItem STORAGE_KEY (JSON_stringify (JArr limitedHistory)) ;;
     console_log (js "Transcription saved to history:")
       (Some (ArgString (fileName historyItem))))
    (fun error =>
       console_error (js "Error saving transcription to history:") error).

(** Delete a specific transcription from history. *)
Definition deleteTranscription (id0 : jsstring) : M unit :=
  try_catch
    (let! history := getTranscriptionHistory in
     let! updatedHistory :=
       Array_filter history
         (fun item =>
            let! item_id := get_property item (js "id") in
            ret (strict_ne_string item_id id0)) in
     localStorage_setItem STORAGE_KEY (JSON_stringify (JArr updatedHistory)) ;;
     console_log (js "Transcription deleted from history:")
       (Some (ArgString id0)))
    (fun error =>
       console_error (js "Error deleting transcription from history:") error).

(** Clear all transcription history. *)
Definition clearAllHistory : M unit :=
  try_catch
    (localStorage_removeItem STORAGE_KEY ;;
     console_log (js "All transcription history cleared") None)
    (fun error =>
       console_error (js "Error clearing transcription history:") error).

(** [name.replace(/\.[^/.]+$/, '')]: the pattern matches a dot followed by
    one or more units that are neither a slash nor a dot, up to the end of
    the input; [replace] removes the leftmost match. *)
Definition ext_body (s : jsstring) : bool :=
  match s with
  | [] => false
  | _ :: _ => forallb (fun c => negb (c =? 47) && negb (c =? 46)) s
  end.

Fixpoint strip_extension (s : jsstring) : jsstring :=
  match s with
  | [] => []
  | c :: s' =>
      if (c =? 46) && ext_body s' then []
      else c :: strip_extension s'
  end.

(** Download transcription as text file. *)
Definition downloadTranscription (item : HistoryItem) : M unit :=
  try_catch
    (let! element := document_createElement_a in
     let! file := new_Blob [text item] (js "text/plain") in
     let! url := URL_createObjectURL file in
     let element := {| href := url; download := download element |} in
     let element :=
       {| href := href element;
          download := strip_extension (fileName item) ++ js "_transcript.txt" |} in
     document_body_appendChild element ;;
     element_click element ;;
     document_body_removeChild element ;;
     console_log (js "Transcription downloaded:")
       (Some (ArgString (fileName item))))
    (fun error =>
       console_error (js "Error downloading transcription:") error).

(** *** Stored lists, and runs of the service *)

(** The JSON array of a list of records. *)
Definition records (l : list HistoryItem) : json := JArr (map item_json l).

(** The storage slot holds the record list [l]: its text deserialises to
    the array of [l], or there is nothing to deserialise (no entry, an
    empty string, a text [JSON.parse] rejects) and [l] is empty. *)
Definition slot (w : World) : option jsstring :=
  localStorage w !! STORAGE_KEY.

Definition holds (w : World) (l : list HistoryItem) : Prop :=
  match slot w with
  | None => l = []
  | Some s =>
      if truthy s then
        match JSON_parse s with
        | Some v => v = records l
        | None => l = []
        end
      else l = []
  end.

(** What the callback of [deleteTranscription] answers on one element:
    [None] when reading [item.id] throws. *)
Definition keeps (id0 : jsstring) (item : json) : option bool :=
  match item with
  | JNull => None
  | JObj m => Some (strict_ne_string (obj_get m (js "id")) id0)
  | _ => Some true
  end.

(** What [history.filter(item => item.id !== id0)] computes: [None] when
    [history] has no [filter] method or the callback throws. *)
Fixpoint keep_all (id0 : jsstring) (l : list json) : option (list json) :=
  match l with
  | [] => Some []
  | x :: l' =>
      match keeps id0 x with
      | None => None
      | Some b =>
          match keep_all id0 l' with
          | None => None
          | Some rest => Some (if b then x :: rest else rest)
          end
      end
  end.

Definition filtered (id0 : jsstring) (history : json) : option (list json) :=
  match history with
  | JArr l => keep_all id0 l
  | _ => None
  end.

(** The console line a caught exception leaves. *)
Definition log_error (msg : jsstring) (x : exn) (w : World) : World :=
  set_console (console w ++ [(LevelError, msg, Some (ArgError x))]) w.

Definition log_info (msg : jsstring) (arg : option log_arg) (w : World)
  : World :=
  set_console (console w ++ [(LevelLog, msg, arg)]) w.

(** The list an operation reads from a slot that holds [l]: [l], or the
    empty list when [getItem] throws. *)
Definition read_inside (e : Env) (l : list HistoryItem) : list HistoryItem :=
  match fault e P_getItem with
  | None => l
  | Some _ => []
  end.

(** The three storage primitives work during a call. *)
Definition storage_ok (e : Env) : Prop :=
  fault e P_getItem = None /\ fault e P_setItem = None /\
  fault e P_removeItem = None.

(** No primitive throws during a call. *)
Definition no_faults (e : Env) : Prop := forall p, fault e p = None.

(** The operations that change the store, each with the surroundings it
    runs in. *)
Inductive op : Type :=
  | Save (e : Env) (result : TranscriptionResult)
  | Delete (e : Env) (id0 : jsstring)
  | Clear (e : Env).

Definition step (w : World) (o : op) : World :=
  match o with
  | Save e result => snd (saveTranscription result e w)
  | Delete e id0 => snd (deleteTranscription id0 e w)
  | Clear e => snd (clearAllHistory e w)
  end.

Definition run (w : World) (trace : list op) : World :=
  fold_left step trace w.

(** A run made of saves only. *)
Definition save_all (saves : list (Env * TranscriptionResult)) : list op :=
  map (fun p => Save (fst p) (snd p)) saves.

(** The record an operation builds, if it is a save. *)
Definition built (o : op) : option HistoryItem :=
  match o with
  | Save e result => Some (make_item e result)
  | _ => None
  end.

(** The records built by the saves of a run, the latest first. *)
Definition saved (trace : list op) : list HistoryItem :=
  reverse (omap built trace).

(** The records that do not carry the id [id0]. *)
Definition without (id0 : jsstring) (l : list HistoryItem)
  : list HistoryItem :=
  filter (fun h => id h <> id0) l.

(** A transcription result and a record carry the same five fields. *)
Definition matches (result : TranscriptionResult) (h : HistoryItem) : Prop :=
  text h = r_text result /\ fileName h = r_fileName result /\
  duration h = r_duration result /\ fileSize h = r_fileSize result /\
  date h = r_date result.

(** A trailing extension, as the pattern of [downloadTranscription]
    understands it: at least one unit, none of them a dot or a slash. *)
Definition is_extension (ext : jsstring) : Prop :=
  ext <> [] /\ forall c, c ∈ ext -> c <> 46 /\ c <> 47.

(** A value is a sequence when it is an array. *)
Definition is_sequence (v : json) : bool :=
  match v with
  | JArr _ => true
  | _ => false
  end.

(** [fst] of a call is a value, not an exception. *)
Definition returns {A} (r : outcome A * World) : Prop :=
  match fst r with
  | Val _ => True
  | Throw _ => False
  end.

#[global] Instance TranscriptionResult_eq_dec : EqDecision TranscriptionResult.
Proof. solve_decision. Defined.

#[global] Instance HistoryItem_eq_dec : EqDecision HistoryItem.
Proof. solve_decision. Defined.

End HistoryService.

Import HistoryService.


(** ** The history page

    [pages/History.tsx]: the state of the component, its handlers, and
    the two computations of its render that read the state (the list
    shown under the search bar, the record of the detail panel). The
    mark-up itself is not modelled. *)

Module HistoryPage.

(** The four [useState] cells. [transcriptions] is whatever
    [getTranscriptionHistory] returned. *)
Record PageState : Type := {
  transcriptions : json;
  searchTerm : jsstring;
  selectedTranscription : option jsstring;
  loading : bool
}.

(** The state of the first render. *)
Definition initial : PageState :=
  {| transcriptions := JArr [];
     searchTerm := js "";
     selectedTranscription := None;
     loading := true |}.

Definition setTranscriptions (v : json) (st : PageState) : PageState :=
  {| transcriptions := v;
     searchTerm := searchTerm st;
     selectedTranscription := selectedTranscription st;
     loading := loading st |}.

Definition setSearchTerm (t : jsstring) (st : PageState) : PageState :=
  {| transcriptions := transcriptions st;
     searchTerm := t;
     selectedTranscription := selectedTranscription st;
     loading := loading st |}.

Definition setSelectedTranscription (sel : option jsstring) (st : PageState)
  : PageState :=
  {| transcriptions := transcriptions st;
     searchTerm := searchTerm st;
     selectedTranscription := sel;
     loading := loading st |}.

Definition setLoading (b : bool) (st : PageState) : PageState :=
  {| transcriptions := transcriptions st;
     searchTerm := searchTerm st;
     selectedTranscription := selectedTranscription st;
     loading := b |}.

Definition loadTranscriptions (st : PageState) : M PageState :=
  let st := setLoading true st in
  let! history := getTranscriptionHistory in
  let st := setTranscriptions history st in
  ret (setLoading false st).

(** [handleSearch], given [e.target.value]. *)
Definition handleSearch (value : jsstring) (st : PageState) : PageState :=
  setSearchTerm value st.

(** [selectedTranscription === id] *)
Definition is_selected (st : PageState) (id0 : jsstring) : bool :=
  match selectedTranscription st with
  | Some sel => if decide (sel = id0) then true else false
  | None => false
  end.

Definition handleDelete (id0 : jsstring) (st : PageState) : M PageState :=
  deleteTranscription id0 ;;
  (* Reload from localStorage *)
  let! st' := loadTranscriptions st in
  ret (if is_selected st id0 then setSelectedTranscription None st' else st').

Definition handleDownload (item : HistoryItem) : M unit :=
  downloadTranscription item.

(** Clicking an entry of the list. *)
Definition select (item_id : jsstring) (st : PageState) : PageState :=
  setSelectedTranscription (Some item_id) st.

(** [s.includes(p)] *)
Fixpoint starts_with (p s : jsstring) : bool :=
  match p, s with
  | [], _ => true
  | a :: p', b :: s' => (a =? b) && starts_with p' s'
  | _ :: _, [] => false
  end.

Fixpoint includes (s p : jsstring) : bool :=
  starts_with p s ||
  match s with
  | [] => false
  | _ :: s' => includes s' p
  end.





Section Search.

(** [String.prototype.toLowerCase], whose Unicode case mapping is the
    platform's. *)
Variable toLowerCase : jsstring -> jsstring.

(** [x.toLowerCase().includes(term.toLowerCase())]: only a string has the
    method. *)
Definition lower_includes (x : option json) (term : jsstring) : M bool :=
  match x with
  | Some (JStr s) => ret (includes (toLowerCase s) (toLowerCase term))
  | _ => throw TypeError
  end.

(** The callback of [filteredTranscriptions]; [||] reads the preview only
    when the file name does not match. *)
Definition matches_search (term : jsstring) (item : json) : M bool :=
  let! name := get_property item (js "fileName") in
  let! hit := lower_includes name term in
  if hit : bool then ret true
  else
    let! pv := get_property item (js "preview") in
    lower_includes pv term.

Definition filteredTranscriptions (st : PageState) : M (list json) :=
  Array_filter (transcriptions st) (matches_search (searchTerm st)).

(** Whether a record is shown for a search term. *)
Definition shown (term : jsstring) (h : HistoryItem) : Prop :=
  includes (toLowerCase (fileName h)) (toLowerCase term) = true \/
  includes (toLowerCase (preview h)) (toLowerCase term) = true.

#[global] Instance shown_dec (term : jsstring) (h : HistoryItem)
  : Decision (shown term h).
Proof. unfold shown. apply _. Defined.

End Search.

End HistoryPage.

(** ** The transcribe page

    [pages/Transcribe.tsx]: the state of the component and the handlers
    that reach the history service or the DOM. *)

Module TranscribePage.

(** A [File] of the drop zone, as far as it is told apart. *)
Record File : Type := { file_name : jsstring; file_size : N }.

(** Modelled from the spec: [transcribeFile] of [./api] is not part of
    the sources at hand; the spec gives only the shape of what it
    resolves to. Its reply to a call is taken as given: it resolves to a
    result, or rejects with an [Error] carrying a message, or rejects
    with something else. *)
Inductive ApiReply : Type :=
  | Resolved (result : TranscriptionResult)
  | RejectedError (message : jsstring)
  | RejectedOther.

(** What the error banner can show: a message, or the message of a
    platform exception. *)
Inductive ErrorText : Type :=
  | Message (m : jsstring)
  | MessageOf (x : exn).

Record PageState : Type := {
  isUploading : bool;
  transcriptionResult : option TranscriptionResult;
  error : option ErrorText;
  copied : bool
}.

Definition initial : PageState :=
  {| isUploading := false;
     transcriptionResult := None;
     error := None;
     copied := false |}.

Definition setIsUploading (b : bool) (st : PageState) : PageState :=
  {| isUploading := b;
     transcriptionResult := transcriptionResult st;
     error := error st;
     copied := copied st |}.

Definition setTranscriptionResult (r : option TranscriptionResult)
    (st : PageState) : PageState :=
  {| isUploading := isUploading st;
     transcriptionResult := r;
     error := error st;
     copied := copied st |}.

Definition setError (x : option ErrorText) (st : PageState) : PageState :=
  {| isUploading := isUploading st;
     transcriptionResult := transcriptionResult st;
     error := x;
     copied := copied st |}.

(** [onDrop]: what runs before the [await] and what runs after it are run
    in one go, on the reply the API gives for the file. *)
Definition onDrop (transcribeFile : File -> ApiReply)
    (acceptedFiles : list File) (st : PageState) : M PageState :=
  match acceptedFiles with
  | [] => ret st
  | file :: _ =>
      let st := setIsUploading true st in
      let st := setError None st in
      let st := setTranscriptionResult None st in
      let! st :=
        match transcribeFile file with
        | Resolved result =>
            let st := setTranscriptionResult (Some result) st in
            try_catch
              ((* Save to history *)
               saveTranscription result ;; ret st)
              (fun err => ret (setError (Some (MessageOf err)) st))
        | RejectedError message => ret (setError (Some (Message message)) st)
        | RejectedOther =>
            ret (setError
                   (Some (Message (js "An error occurred during transcription")))
                   st)
        end in
      ret (setIsUploading false st)
  end.

(** [handleDownload] of this page: no [try], and the file name is used as
    it is. *)
Definition handleDownload (st : PageState) : M unit :=
  match transcriptionResult st with
  | None => ret tt
  | Some result =>
      let! element := document_createElement_a in
      let! file := new_Blob [r_text result] (js "text/plain") in
      let! url := URL_createObjectURL file in
      let element := {| href := url; download := download element |} in
      let element :=
        {| href := href element;
           download := r_fileName result ++ js "_transcript.txt" |} in
      document_body_appendChild element ;;
      element_click element ;;
      document_body_removeChild element
  end.

End TranscribePage.

(** ** Sample data *)

Module Samples.

(** Surroundings in which nothing throws. *)
Definition quiet : Env :=
  {| Date_now := 1730000000000;
     Math_random_base36 := js "0.4fzyo82mvyr";
     blob_url := js "blob:luminatext/1";
     fault := fun _ => None |}.

Definition at_time (n : N) : Env :=
  {| Date_now := 1730000000000 + n;
     Math_random_base36 := js "0.4fzyo82mvyr";
     blob_url := js "blob:luminatext/1";
     fault := fun _ => None |}.

(** Surroundings in which every write to the storage is refused. *)
Definition full_disk : Env :=
  {| Date_now := 1730000000000;
     Math_random_base36 := js "0.4fzyo82mvyr";
     blob_url := js "blob:luminatext/1";
     fault := fun p =>
                match p with
                | P_setItem => Some QuotaExceededError
                | _ => None
                end |}.

Definition blank : World :=
  {| localStorage := ∅;
     console := [];
     object_urls := [];
     body := [];
     downloads := [] |}.

(** A world whose slot holds the given text. *)
Definition with_slot (text : jsstring) : World :=
  set_localStorage {[ STORAGE_KEY := text ]} blank.

Definition talk (n : nat) : TranscriptionResult :=
  {| r_fileName := js "talk.final.mp3";
     r_date := js "2024-10-27";
     r_duration := js "1:00";
     r_fileSize := js "1 MB";
     r_text := js "take " ++ Number_toString (N.of_nat n) |}.

Definition long_talk : TranscriptionResult :=
  {| r_fileName := js "lecture.wav";
     r_date := js "2024-10-27";
     r_duration := js "9:00";
     r_fileSize := js "12 MB";
     r_text := repeat 97 200 |}.

Definition sample_saves : list (Env * TranscriptionResult) :=
  map (fun n => (at_time (N.of_nat n), talk n)) (seq 0 101).

Definition first_id : jsstring := id (make_item (at_time 1) (talk 1)).

Definition sample_trace : list op :=
  [ Save (at_time 1) (talk 1); Save full_disk (talk 2);
    Save (at_time 3) (talk 3); Delete quiet first_id;
    Clear full_disk; Save (at_time 4) long_talk ].

(** Two records saved one after the other. *)
Definition stocked : World :=
  run blank [Save (at_time 1) (talk 1); Save (at_time 2) (talk 2)].

Definition stocked_list : list HistoryItem :=
  [make_item (at_time 2) (talk 2); make_item (at_time 1) (talk 1)].

(** Three records, the first and the last under the same id. *)
Definition twins : World :=
  run blank [Save (at_time 1) (talk 1); Save (at_time 2) (talk 2);
             Save (at_time 1) (talk 3)].

Definition twins_list : list HistoryItem :=
  [make_item (at_time 1) (talk 3); make_item (at_time 2) (talk 2);
   make_item (at_time 1) (talk 1)].

End Samples.

(** ** More sample data *)

Module PageSamples.

(** Lower case for the letters A to Z, every other unit kept. *)
Definition ascii_lower (s : jsstring) : jsstring :=
  map (fun c => if (65 <=? c) && (c <=? 90) then c + 32 else c) s.

(** A world whose storage has an entry under another key as well. *)
Definition themed : World :=
  set_localStorage (<[ js "theme" := js "dark" ]> (localStorage Samples.stocked))
    Samples.stocked.

(** Surroundings in which the document refuses to create elements. *)
Definition no_document : Env :=
  {| Date_now := 1730000000000;
     Math_random_base36 := js "0.4fzyo82mvyr";
     blob_url := js "blob:luminatext/1";
     fault := fun p =>
                match p with
                | P_createElement => Some DOMError
                | _ => None
                end |}.

(** The history page after it has loaded the two records of
    [Samples.stocked], with a search term typed in. *)
Definition browsing : HistoryPage.PageState :=
  {| HistoryPage.transcriptions := records Samples.stocked_list;
     HistoryPage.searchTerm := js "TAKE 2";
     HistoryPage.selectedTranscription := Some Samples.first_id;
     HistoryPage.loading := false |}.

Definition a_file : TranscribePage.File :=
  {| TranscribePage.file_name := js "talk.final.mp3";
     TranscribePage.file_size := 1048576 |}.

(** An API that transcribes every file to the same result. *)
Definition api_ok (f : TranscribePage.File) : TranscribePage.ApiReply :=
  TranscribePage.Resolved Samples.long_talk.

Definition api_down (f : TranscribePage.File) : TranscribePage.ApiReply :=
  TranscribePage.RejectedError (js "Network Error").

(** The transcribe page showing a result. *)
Definition showing : TranscribePage.PageState :=
  {| TranscribePage.isUploading := false;
     TranscribePage.transcriptionResult := Some (Samples.talk 1);
     TranscribePage.error := None;
     TranscribePage.copied := false |}.

End PageSamples.

(** ** Facts about JSON texts *)

(** Run the parser as far as the known units of the text decide. *)
Ltac run_parser :=
  cbn [app parse_value parse_elements parse_members skip_ws is_ws
       N.eqb Pos.eqb orb andb].

Section JSONFacts.

Lemma hex_value_digit (n : N) : n < 16 -> hex_value (hex_digit n) = Some n.
Proof.
  intros Hn.
  assert (Hall : forallb (fun k => match hex_value (hex_digit (N.of_nat k)) with
                                   | Some m => m =? N.of_nat k
                                   | None => false
                                   end) (seq 0 16) = true) by (vm_compute; reflexivity).
  rewrite forallb_forall in Hall.
  specialize (Hall (N.to_nat n)).
  rewrite N2Nat.id in Hall.
  destruct (hex_value (hex_digit n)) as [m|].
  - f_equal. apply N.eqb_eq, Hall, in_seq. lia.
  - discriminate Hall. apply in_seq. lia.
Qed.

Lemma hex4_value (c : N) :
  c < 65536 ->
  4096 * (c / 4096 mod 16) + 256 * (c / 256 mod 16) + 16 * (c / 16 mod 16)
    + c mod 16 = c.
Proof.
  intros Hc.
  assert (H1 : c / 4096 mod 16 = c / 4096)
    by (apply N.mod_small, N.Div0.div_lt_upper_bound; lia).
  rewrite H1.
  pose proof (N.div_mod c 16 ltac:(lia)) as E0.
  pose proof (N.div_mod (c / 16) 16 ltac:(lia)) as E1.
  pose proof (N.div_mod (c / 16 / 16) 16 ltac:(lia)) as E2.
  rewrite !N.Div0.div_div in E1, E2.
  rewrite N.Div0.div_div in E2.
  change (16 * 16) with 256 in *. change (256 * 16) with 4096 in *.
  lia.
Qed.

Lemma parse_unicode_escape (c : N) (s : jsstring) :
  c < 65536 -> parse_chars (unicode_escape c ++ s) = read_after c s.
Proof.
  intros Hc. unfold unicode_escape, read_after.
  cbn [app parse_chars].
  change (92 =? 34) with false. change (92 =? 92) with true.
  change (117 =? 34) with false. change (117 =? 92) with false.
  change (117 =? 47) with false. change (117 =? 98) with false.
  change (117 =? 102) with false. change (117 =? 110) with false.
  change (117 =? 114) with false. change (117 =? 116) with false.
  change (117 =? 117) with true. cbv iota.
  rewrite !hex_value_digit by (apply N.mod_lt; lia).
  rewrite hex4_value by exact Hc. reflexivity.
Qed.

Lemma parse_quote_unit (c : N) (s : jsstring) :
  is_lead c = false -> parse_chars (quote_unit c ++ s) = read_after c s.
Proof.
  intros Hlead. unfold quote_unit.
  repeat match goal with
         | |- context [if ?a =? ?b then _ else _] =>
             destruct (N.eqb_spec a b) as [->|?]; [reflexivity|]
         end.
  destruct ((c <? 32) || is_trail c) eqn:E.
  - apply parse_unicode_escape.
    unfold is_trail in E.
    apply orb_true_iff in E as [E|E]; [apply N.ltb_lt in E; lia|].
    apply andb_true_iff in E as [_ E]. apply N.leb_le in E. lia.
  - apply orb_false_iff in E as [E _]. unfold read_after.
    cbn [app parse_chars].
    destruct (N.eqb_spec c 34); [contradiction|].
    destruct (N.eqb_spec c 92); [contradiction|].
    rewrite E. reflexivity.
Qed.

Lemma is_lead_range (c : N) : is_lead c = true -> c < 65536 /\ 32 <= c /\ c <> 34 /\ c <> 92.
Proof.
  unfold is_lead. intros H. apply andb_true_iff in H as [H1 H2].
  apply N.leb_le in H1, H2. lia.
Qed.

Lemma is_trail_range (c : N) : is_trail c = true -> 32 <= c /\ c <> 34 /\ c <> 92.
Proof.
  unfold is_trail. intros H. apply andb_true_iff in H as [H1 H2].
  apply N.leb_le in H1, H2. lia.
Qed.

Lemma parse_raw_unit (c : N) (s : jsstring) :
  32 <= c -> c <> 34 -> c <> 92 -> parse_chars (c :: s) = read_after c s.
Proof.
  intros H1 H2 H3. unfold read_after. cbn [parse_chars].
  destruct (N.eqb_spec c 34); [contradiction|].
  destruct (N.eqb_spec c 92); [contradiction|].
  destruct (N.ltb_spec c 32); [lia|]. reflexivity.
Qed.

(** Reading back a quoted string: the closing quote ends it, whatever
    follows. The induction goes two units at a time, as [quote_units]
    does on a surrogate pair. *)
Lemma parse_quote_units (s rest : jsstring) :
  parse_chars (quote_units s ++ 34 :: rest) = Some (s, rest).
Proof.
  enough (H : parse_chars (quote_units s ++ 34 :: rest) = Some (s, rest)
              /\ forall c, parse_chars (quote_units (c :: s) ++ 34 :: rest)
                           = Some (c :: s, rest)) by apply H.
  induction s as [|d s [IH1 IH2]].
  - split; [reflexivity|]. intros c. cbn [quote_units].
    destruct (is_lead c) eqn:E.
    + rewrite parse_unicode_escape by (apply is_lead_range, E). reflexivity.
    + rewrite <- app_assoc, parse_quote_unit by exact E. reflexivity.
  - split; [apply IH2|]. intros c.
    change (quote_units (c :: d :: s)) with
      (if is_lead c then
         if is_trail d then c :: d :: quote_units s
         else unicode_escape c ++ quote_units (d :: s)
       else quote_unit c ++ quote_units (d :: s)).
    destruct (is_lead c) eqn:E.
    + destruct (is_lead_range c E) as (Hc & ? & ? & ?).
      destruct (is_trail d) eqn:E'.
      * destruct (is_trail_range d E') as (? & ? & ?).
        change ((c :: d :: quote_units s) ++ 34 :: rest) with
          (c :: d :: quote_units s ++ 34 :: rest).
        rewrite parse_raw_unit by assumption. unfold read_after.
        rewrite parse_raw_unit by assumption. unfold read_after.
        rewrite IH1. reflexivity.
      * rewrite <- app_assoc, parse_unicode_escape by exact Hc.
        unfold read_after. rewrite IH2. reflexivity.
    + rewrite <- app_assoc, parse_quote_unit by exact E.
      unfold read_after. rewrite IH2. reflexivity.
Qed.

(** *** Numbers: a token is read back whatever delimiter follows *)

Lemma delimited_head (c : N) (rest : jsstring) :
  delimited (c :: rest) ->
  is_digit c = false /\ is_ws c = false /\ (c =? 46) = false /\
  (c =? 101) = false /\ (c =? 69) = false /\ (c =? 45) = false.
Proof. intros [-> | [-> | ->]]; repeat split; reflexivity. Qed.

Lemma scan_digits_app (s rest : jsstring) :
  delimited rest ->
  scan_digits (s ++ rest) = (fst (scan_digits s), snd (scan_digits s) ++ rest).
Proof.
  intros Hd. induction s as [|c s IH]; cbn [app scan_digits].
  - destruct rest as [|c rest]; [reflexivity|].
    destruct (delimited_head c rest Hd) as (E & _).
    cbn [scan_digits]. rewrite E. reflexivity.
  - destruct (is_digit c); [|reflexivity].
    rewrite IH. destruct (scan_digits s). reflexivity.
Qed.

Lemma scan_digits1_app (s rest d r : jsstring) :
  delimited rest -> scan_digits1 s = Some (d, r) ->
  scan_digits1 (s ++ rest) = Some (d, r ++ rest).
Proof.
  intros Hd. unfold scan_digits1. rewrite scan_digits_app by exact Hd.
  destruct (scan_digits s) as [[|a d'] r']; [discriminate|].
  intros [= <- <-]. reflexivity.
Qed.

Lemma scan_int_app (s rest t r : jsstring) :
  delimited rest -> scan_int s = Some (t, r) ->
  scan_int (s ++ rest) = Some (t, r ++ rest).
Proof.
  intros Hd. destruct s as [|c s]; [discriminate|]. cbn [app scan_int].
  destruct (c =? 48); [intros [= <- <-]; reflexivity|].
  destruct (is_digit c); [|discriminate].
  rewrite scan_digits_app by exact Hd.
  destruct (scan_digits s). intros [= <- <-]. reflexivity.
Qed.

Lemma scan_frac_app (s rest t r : jsstring) :
  delimited rest -> scan_frac s = Some (t, r) ->
  scan_frac (s ++ rest) = Some (t, r ++ rest).
Proof.
  intros Hd. destruct s as [|c s].
  - intros [= <- <-]. destruct rest as [|c rest]; [reflexivity|].
    destruct (delimited_head c rest Hd) as (_ & _ & E & _).
    cbn [app scan_frac]. rewrite E. reflexivity.
  - cbn [app scan_frac]. destruct (c =? 46).
    + destruct (scan_digits1 s) as [[d r']|] eqn:E; [|discriminate].
      rewrite (scan_digits1_app _ _ _ _ Hd E). intros [= <- <-]. reflexivity.
    + intros [= <- <-]. reflexivity.
Qed.

Lemma scan_exp_app (s rest t r : jsstring) :
  delimited rest -> scan_exp s = Some (t, r) ->
  scan_exp (s ++ rest) = Some (t, r ++ rest).
Proof.
  intros Hd. destruct s as [|c s].
  - intros [= <- <-]. destruct rest as [|c rest]; [reflexivity|].
    destruct (delimited_head c rest Hd) as (_ & _ & _ & E1 & E2 & _).
    cbn [app scan_exp]. rewrite E1, E2. reflexivity.
  - cbn [app scan_exp]. destruct ((c =? 101) || (c =? 69)).
    + destruct s as [|g s]; [discriminate|]. cbn [app].
      destruct ((g =? 43) || (g =? 45)).
      * destruct (scan_digits1 s) as [[d r']|] eqn:E; [|discriminate].
        rewrite (scan_digits1_app _ _ _ _ Hd E). intros [= <- <-]. reflexivity.
      * destruct (scan_digits1 (g :: s)) as [[d r']|] eqn:E; [|discriminate].
        change (g :: s ++ rest) with ((g :: s) ++ rest).
        rewrite (scan_digits1_app _ _ _ _ Hd E). intros [= <- <-]. reflexivity.
    + intros [= <- <-]. reflexivity.
Qed.

Lemma scan_number_app (s rest t r : jsstring) :
  delimited rest -> scan_number s = Some (t, r) ->
  scan_number (s ++ rest) = Some (t, r ++ rest).
Proof.
  intros Hd. unfold scan_number.
  assert (Hstep : forall sign s1,
    match scan_int s1 with
    | None => None
    | Some (i, s2) =>
        match scan_frac s2 with
        | None => None
        | Some (f, s3) =>
            match scan_exp s3 with
            | None => None
            | Some (e, s4) => Some (sign ++ i ++ f ++ e, s4)
            end
        end
    end = Some (t, r) ->
    match scan_int (s1 ++ rest) with
    | None => None
    | Some (i, s2) =>
        match scan_frac s2 with
        | None => None
        | Some (f, s3) =>
            match scan_exp s3 with
            | None => None
            | Some (e, s4) => Some (sign ++ i ++ f ++ e, s4)
            end
        end
    end = Some (t, r ++ rest)).
  { intros sign s1.
    destruct (scan_int s1) as [[i s2]|] eqn:Ei; [|discriminate].
    rewrite (scan_int_app _ _ _ _ Hd Ei).
    destruct (scan_frac s2) as [[f s3]|] eqn:Ef; [|discriminate].
    rewrite (scan_frac_app _ _ _ _ Hd Ef).
    destruct (scan_exp s3) as [[e s4]|] eqn:Ee; [|discriminate].
    rewrite (scan_exp_app _ _ _ _ Hd Ee).
    intros [= <- <-]. reflexivity. }
  destruct s as [|c s].
  - discriminate.
  - cbn [app]. destruct (c =? 45).
    + apply Hstep.
    + apply (Hstep [] (c :: s)).
Qed.

Lemma number_token_head (t : jsstring) :
  number_token t ->
  exists c t', t = c :: t' /\ (c = 45 \/ is_digit c = true).
Proof.
  unfold number_token, scan_number. destruct t as [|c t]; [discriminate|].
  intros H. exists c, t. split; [reflexivity|].
  destruct (N.eqb_spec c 45); [left; assumption|right].
  unfold scan_int in H. destruct (N.eqb_spec c 48) as [->|]; [reflexivity|].
  destruct (is_digit c); [reflexivity|discriminate].
Qed.

(** A number token in front of a delimiter is read by [parse_value] as
    that number. *)
Lemma parse_value_number (n : nat) (t rest : jsstring) :
  number_token t -> delimited rest ->
  parse_value (S n) (t ++ rest) = Some (JNum t, rest).
Proof.
  intros Ht Hd.
  destruct (number_token_head t Ht) as (c & t' & -> & Hc).
  pose proof (scan_number_app _ _ _ _ Hd Ht) as Hs.
  cbn [app] in Hs |- *.
  assert (Hcases : c = 45 \/ (48 <= c /\ c <= 57)).
  { destruct Hc as [->|Hc]; [left; reflexivity|right].
    unfold is_digit in Hc. apply andb_true_iff in Hc as [H1 H2].
    apply N.leb_le in H1, H2. lia. }
  assert (Hws : is_ws c = false).
  { unfold is_ws.
    destruct (N.eqb_spec c 32), (N.eqb_spec c 9), (N.eqb_spec c 10),
      (N.eqb_spec c 13); try reflexivity; lia. }
  cbn [parse_value skip_ws]. rewrite Hws.
  destruct (N.eqb_spec c 34); [lia|].
  destruct (N.eqb_spec c 91); [lia|].
  destruct (N.eqb_spec c 123); [lia|].
  change (js "null") with [110; 117; 108; 108].
  change (js "true") with [116; 114; 117; 101].
  change (js "false") with [102; 97; 108; 115; 101].
  cbn [strip_prefix].
  destruct (N.eqb_spec 110 c); [lia|].
  destruct (N.eqb_spec 116 c); [lia|].
  destruct (N.eqb_spec 102 c); [lia|].
  rewrite Hs. reflexivity.
Qed.

(** *** Structural induction on JSON values *)

Lemma json_ind' (P : json -> Prop) :
  P JNull -> (forall b, P (JBool b)) -> (forall t, P (JNum t)) ->
  (forall s, P (JStr s)) ->
  (forall l, Forall P l -> P (JArr l)) ->
  (forall m, Forall (fun kv => P (snd kv)) m -> P (JObj m)) ->
  forall v, P v.
Proof.
  intros Hnull Hbool Hnum Hstr Harr Hobj.
  fix IH 1. intros [|b|t|s|l|m].
  - exact Hnull.
  - apply Hbool.
  - apply Hnum.
  - apply Hstr.
  - apply Harr.
    revert l. fix IHl 1. intros [|x l]; constructor; [apply IH|apply IHl].
  - apply Hobj.
    revert m. fix IHm 1. intros [|[k x] m]; constructor; [apply IH|apply IHm].
Qed.

(** The first unit of a printed value decides how it is read. *)
Lemma stringify_head (v : json) :
  wf v ->
  exists c t, JSON_stringify v = c :: t /\ is_ws c = false /\
              c <> 93 /\ c <> 125.
Proof.
  destruct v as [|[|]|t|s|l|m]; intros Hwf;
    try (eexists _, _; split; [reflexivity|];
         split; [reflexivity|]; split; discriminate).
  destruct (number_token_head t Hwf) as (c & t' & -> & Hc).
  exists c, t'. split; [reflexivity|].
  assert (c = 45 \/ (48 <= c /\ c <= 57)) as Hr.
  { destruct Hc as [->|Hc]; [left; reflexivity|right].
    unfold is_digit in Hc. apply andb_true_iff in Hc as [H1 H2].
    apply N.leb_le in H1, H2. lia. }
  split; [|lia]. unfold is_ws.
  destruct (N.eqb_spec c 32), (N.eqb_spec c 9), (N.eqb_spec c 10),
    (N.eqb_spec c 13); try reflexivity; lia.
Qed.

Lemma skip_ws_stringify (v : json) (rest : jsstring) :
  wf v ->
  exists c t, JSON_stringify v ++ rest = c :: t /\
              skip_ws (c :: t) = c :: t /\ c <> 93 /\ c <> 125.
Proof.
  intros Hwf. destruct (stringify_head v Hwf) as (c & t & E & Hws & H1 & H2).
  exists c, (t ++ rest). rewrite E. split; [reflexivity|].
  cbn [skip_ws]. rewrite Hws. auto.
Qed.

(** *** Printing then parsing *)


Lemma parse_elements_stringify (n : nat) (l : list json) (rest : jsstring) :
  Forall (fun v => wf v -> forall fuel rest, (size v <= fuel)%nat ->
            delimited rest ->
            parse_value fuel (JSON_stringify v ++ rest) = Some (v, rest)) l ->
  l <> [] ->
  fold_right (fun x acc => wf x /\ acc) True l ->
  (fold_right (fun x acc => S (size x + acc)) O l <= n)%nat ->
  parse_elements n (stringify_elements JSON_stringify l ++ rest)
  = Some (l, rest).
Proof.
  intros HP. revert n. induction HP as [|x l Hx _ IH]; [congruence|].
  intros n _ [Hwx Hwl] Hn. cbn [fold_right] in Hn.
  destruct n as [|n]; [lia|].
  cbn [stringify_elements parse_elements]. rewrite <- app_assoc.
  destruct l as [|y l].
  - rewrite (Hx Hwx) by (first [lia | right; left; reflexivity]).
    reflexivity.
  - rewrite (Hx Hwx) by (first [lia | left; reflexivity]).
    run_parser.
    change ((fix elements (l0 : list json) : jsstring :=
               match l0 with
               | [] => [93]
               | x0 :: l' =>
                   JSON_stringify x0 ++
                   match l' with
                   | [] => [93]
                   | _ :: _ => 44 :: elements l'
                   end
               end) (y :: l))
      with (stringify_elements JSON_stringify (y :: l)).
    rewrite IH; [reflexivity|discriminate|exact Hwl|].
    cbn [fold_right] in *. lia.
Qed.

Lemma parse_members_stringify (n : nat) (m : list (jsstring * json))
    (rest : jsstring) :
  Forall (fun kv => wf (snd kv) -> forall fuel rest,
            (size (snd kv) <= fuel)%nat -> delimited rest ->
            parse_value fuel (JSON_stringify (snd kv) ++ rest)
            = Some (snd kv, rest)) m ->
  m <> [] ->
  fold_right (fun kv acc => wf (snd kv) /\ acc) True m ->
  (fold_right (fun kv acc => S (size (snd kv) + acc)) O m <= n)%nat ->
  parse_members n (stringify_members JSON_stringify m ++ rest)
  = Some (m, rest).
Proof.
  intros HP. revert n. induction HP as [|[k x] m Hx _ IH]; [congruence|].
  intros n _ [Hwx Hwm] Hn. cbn [fold_right snd] in Hn, Hx, Hwx.
  destruct n as [|n]; [lia|].
  cbn [stringify_members]. unfold QuoteJSONString.
  run_parser. rewrite <- !app_assoc. cbn [app].
  rewrite parse_quote_units. run_parser.
  destruct m as [|y m].
  - rewrite <- ?app_assoc.
    rewrite (Hx Hwx) by (first [lia | right; right; reflexivity]).
    reflexivity.
  - rewrite <- ?app_assoc.
    rewrite (Hx Hwx) by (first [lia | left; reflexivity]).
    run_parser.
    change ((fix members (m0 : list (jsstring * json)) : jsstring :=
               match m0 with
               | [] => [125]
               | (k0, x0) :: m' =>
                   QuoteJSONString k0 ++
                   58 :: JSON_stringify x0 ++
                   match m' with
                   | [] => [125]
                   | _ :: _ => 44 :: members m'
                   end
               end) (y :: m))
      with (stringify_members JSON_stringify (y :: m)).
    rewrite IH; [reflexivity|discriminate|exact Hwm|].
    cbn [fold_right] in *. lia.
Qed.

(** A well-formed value, printed and followed by a delimiter, is read
    back with any fuel of at least its size. *)
Lemma parse_value_stringify (v : json) :
  wf v -> forall fuel rest,
  (size v <= fuel)%nat -> delimited rest ->
  parse_value fuel (JSON_stringify v ++ rest) = Some (v, rest).
Proof.
  induction v as [|b|t|s|l IH|m IH] using json_ind';
    intros Hwf fuel rest Hfuel Hd;
    (destruct fuel as [|n]; [cbn [size] in Hfuel; lia|]).
  - reflexivity.
  - destruct b; reflexivity.
  - apply parse_value_number; assumption.
  - cbn [JSON_stringify]. unfold QuoteJSONString.
    rewrite <- app_comm_cons, <- app_assoc.
    run_parser. rewrite parse_quote_units. reflexivity.
  - cbn [JSON_stringify size wf] in *.
    run_parser.
    destruct l as [|x l]; [reflexivity|].
    assert (Hel : parse_elements n
                    (stringify_elements JSON_stringify (x :: l) ++ rest)
                  = Some (x :: l, rest)).
    { apply parse_elements_stringify; [exact IH|discriminate|exact Hwf|lia]. }
    destruct Hwf as [Hwx _].
    destruct (skip_ws_stringify x
                ((match l with
                  | [] => [93]
                  | _ :: _ => 44 :: stringify_elements JSON_stringify l
                  end) ++ rest) Hwx) as (c & t & E & Hws & Hc & _).
    assert (Etxt : stringify_elements JSON_stringify (x :: l) ++ rest = c :: t).
    { rewrite <- E. cbn [stringify_elements]. rewrite <- app_assoc.
      destruct l; reflexivity. }
    rewrite Etxt in Hel |- *. rewrite Hws.
    destruct (N.eqb_spec c 93); [contradiction|].
    rewrite Hel. reflexivity.
  - cbn [JSON_stringify size wf] in *.
    run_parser.
    destruct m as [|[k x] m]; [reflexivity|].
    assert (Hel : parse_members n
                    (stringify_members JSON_stringify ((k, x) :: m) ++ rest)
                  = Some ((k, x) :: m, rest)).
    { apply parse_members_stringify; [exact IH|discriminate|exact Hwf|lia]. }
    cbn [stringify_members] in Hel |- *. unfold QuoteJSONString in Hel |- *.
    cbn [app] in Hel |- *. run_parser.
    rewrite Hel. reflexivity.
Qed.

Lemma length_stringify_elements (l : list json) :
  Forall (fun v => wf v -> (size v <= length (JSON_stringify v))%nat) l ->
  fold_right (fun x acc => wf x /\ acc) True l ->
  (fold_right (fun x acc => S (size x + acc)) O l
   <= length (stringify_elements JSON_stringify l))%nat.
Proof.
  induction 1 as [|x l Hx _ IH]; [cbn; lia|].
  intros [Hwx Hwl]. specialize (Hx Hwx). specialize (IH Hwl).
  cbn [fold_right stringify_elements]. rewrite length_app.
  destruct l as [|y l]; [cbn in *; lia|].
  cbn [length].
  change ((fix elements (l0 : list json) : jsstring :=
             match l0 with
             | [] => [93]
             | x0 :: l' =>
                 JSON_stringify x0 ++
                 match l' with
                 | [] => [93]
                 | _ :: _ => 44 :: elements l'
                 end
             end) (y :: l))
    with (stringify_elements JSON_stringify (y :: l)).
  lia.
Qed.

Lemma length_stringify_members (m : list (jsstring * json)) :
  Forall (fun kv => wf (snd kv) ->
            (size (snd kv) <= length (JSON_stringify (snd kv)))%nat) m ->
  fold_right (fun kv acc => wf (snd kv) /\ acc) True m ->
  (fold_right (fun kv acc => S (size (snd kv) + acc)) O m
   <= length (stringify_members JSON_stringify m))%nat.
Proof.
  induction 1 as [|[k x] m Hx _ IH]; [cbn; lia|].
  intros [Hwx Hwm]. specialize (Hx Hwx). specialize (IH Hwm).
  cbn [fold_right stringify_members snd] in *.
  rewrite length_app. cbn [length]. rewrite length_app.
  destruct m as [|y m]; [cbn in *; lia|].
  cbn [length].
  change ((fix members (m0 : list (jsstring * json)) : jsstring :=
             match m0 with
             | [] => [125]
             | (k0, x0) :: m' =>
                 QuoteJSONString k0 ++
                 58 :: JSON_stringify x0 ++
                 match m' with
                 | [] => [125]
                 | _ :: _ => 44 :: members m'
                 end
             end) (y :: m))
    with (stringify_members JSON_stringify (y :: m)).
  lia.
Qed.

Lemma size_le_length (v : json) :
  wf v -> (size v <= length (JSON_stringify v))%nat.
Proof.
  induction v as [|b|t|s|l IH|m IH] using json_ind'; intros Hwf.
  - cbn; lia.
  - destruct b; cbn; lia.
  - destruct (number_token_head t Hwf) as (c & t' & -> & _). cbn; lia.
  - cbn; lia.
  - cbn [size JSON_stringify length].
    pose proof (length_stringify_elements l IH Hwf). lia.
  - cbn [size JSON_stringify length].
    pose proof (length_stringify_members m IH Hwf). lia.
Qed.

(** [JSON.parse(JSON.stringify(v))] gives [v] back. *)
Lemma JSON_parse_stringify (v : json) :
  wf v -> JSON_parse (JSON_stringify v) = Some v.
Proof.
  intros Hwf. unfold JSON_parse.
  pose proof (parse_value_stringify v Hwf
                (S (length (JSON_stringify v))) [] ) as H.
  rewrite app_nil_r in H. rewrite H; [reflexivity| |exact I].
  pose proof (size_le_length v Hwf). lia.
Qed.

(** *** The fuel of [JSON_parse] is enough

    More fuel never changes a result, and a value that is read with some
    fuel is read with the fuel [size] gives it, which the units consumed
    pay for. So [JSON_parse] rejects a text only when no fuel would read
    it. *)

Lemma parse_fuel_mono (n : nat) :
  (forall m s res, (n <= m)%nat ->
     parse_value n s = Some res -> parse_value m s = Some res) /\
  (forall m s res, (n <= m)%nat ->
     parse_elements n s = Some res -> parse_elements m s = Some res) /\
  (forall m s res, (n <= m)%nat ->
     parse_members n s = Some res -> parse_members m s = Some res).
Proof.
  induction n as [|n (IHv & IHe & IHm)];
    [repeat split; intros; discriminate|].
  repeat split; intros [|m] s res Hle; try lia;
    assert (Hle' : (n <= m)%nat) by lia.
  - cbn [parse_value]. destruct (skip_ws s) as [|c r]; [discriminate|].
    destruct (c =? 34); [auto|].
    destruct (c =? 91).
    { destruct (skip_ws r) as [|d r']; [discriminate|].
      destruct (d =? 93); [auto|].
      destruct (parse_elements n r) as [[l r'']|] eqn:E; [|discriminate].
      rewrite (IHe _ _ _ Hle' E). auto. }
    destruct (c =? 123); [|auto].
    destruct (skip_ws r) as [|d r']; [discriminate|].
    destruct (d =? 125); [auto|].
    destruct (parse_members n r) as [[l r'']|] eqn:E; [|discriminate].
    rewrite (IHm _ _ _ Hle' E). auto.
  - cbn [parse_elements].
    destruct (parse_value n s) as [[v r]|] eqn:E; [|discriminate].
    rewrite (IHv _ _ _ Hle' E).
    destruct (skip_ws r) as [|d r']; [discriminate|].
    destruct (d =? 44); [|auto].
    destruct (parse_elements n r') as [[l r'']|] eqn:E'; [|discriminate].
    rewrite (IHe _ _ _ Hle' E'). auto.
  - cbn [parse_members]. destruct (skip_ws s) as [|q r0]; [discriminate|].
    destruct (q =? 34); [|discriminate].
    destruct (parse_chars r0) as [[k r1]|]; [|discriminate].
    destruct (skip_ws r1) as [|c r2]; [discriminate|].
    destruct (c =? 58); [|discriminate].
    destruct (parse_value n r2) as [[v r3]|] eqn:E; [|discriminate].
    rewrite (IHv _ _ _ Hle' E).
    destruct (skip_ws r3) as [|d r4]; [discriminate|].
    destruct (d =? 44); [|auto].
    destruct (parse_members n r4) as [[l r5]|] eqn:E'; [|discriminate].
    rewrite (IHm _ _ _ Hle' E'). auto.
Qed.

Lemma length_skip_ws (s : jsstring) : (length (skip_ws s) <= length s)%nat.
Proof.
  induction s as [|c s IH]; [reflexivity|]. cbn [skip_ws].
  destruct (is_ws c); cbn [length]; lia.
Qed.

Lemma skip_ws_cons (s r : jsstring) (c : N) :
  skip_ws s = c :: r -> (S (length r) <= length s)%nat.
Proof. intros H. pose proof (length_skip_ws s) as L. rewrite H in L. exact L. Qed.

Lemma length_parse_chars (s x r : jsstring) :
  parse_chars s = Some (x, r) -> (S (length r) <= length s)%nat.
Proof.
  revert x r.
  induction s as [s IH] using (induction_ltof1 _ (@length N)).
  unfold ltof in IH. intros x r. destruct s as [|c s]; [discriminate|].
  cbn [parse_chars]. destruct (c =? 34).
  { intros [= <- <-]. cbn [length]. lia. }
  destruct (c =? 92).
  - destruct s as [|e s]; [discriminate|].
    assert (Hsimple : forall u,
      match parse_chars s with
      | Some (x0, r0) => Some (u :: x0, r0)
      | None => None
      end = Some (x, r) -> (S (length r) <= length (c :: e :: s))%nat).
    { intros u. destruct (parse_chars s) as [[x0 r0]|] eqn:E; [|discriminate].
      intros [= <- <-]. apply IH in E; cbn [length] in *; lia. }
    repeat match goal with
           | |- (if ?b then _ else _) = _ -> _ =>
               destruct b; [first [apply Hsimple | idtac]|]
           end; try discriminate.
    destruct s as [|h1 [|h2 [|h3 [|h4 s4]]]]; try discriminate.
    destruct (hex_value h1), (hex_value h2), (hex_value h3), (hex_value h4);
      try discriminate.
    destruct (parse_chars s4) as [[x0 r0]|] eqn:E; [|discriminate].
    intros [= <- <-]. apply IH in E; cbn [length] in *; lia.
  - destruct (c <? 32); [discriminate|].
    destruct (parse_chars s) as [[x0 r0]|] eqn:E; [|discriminate].
    intros [= <- <-]. apply IH in E; cbn [length] in *; lia.
Qed.

Lemma length_strip_prefix (p s r : jsstring) :
  strip_prefix p s = Some r -> length s = (length p + length r)%nat.
Proof.
  revert s. induction p as [|a p IH]; intros s; cbn [strip_prefix].
  - intros [= ->]. reflexivity.
  - destruct s as [|b s]; [discriminate|]. destruct (a =? b); [|discriminate].
    intros H. apply IH in H. cbn [length]. lia.
Qed.

Lemma length_scan_digits (s : jsstring) :
  length s = (length (fst (scan_digits s)) + length (snd (scan_digits s)))%nat.
Proof.
  induction s as [|c s IH]; [reflexivity|]. cbn [scan_digits].
  destruct (is_digit c); [|reflexivity].
  destruct (scan_digits s). cbn [fst snd length] in *. lia.
Qed.

Lemma length_scan_digits1 (s d r : jsstring) :
  scan_digits1 s = Some (d, r) -> length s = (length d + length r)%nat.
Proof.
  unfold scan_digits1. pose proof (length_scan_digits s) as L.
  destruct (scan_digits s) as [[|a d'] r']; [discriminate|].
  intros [= <- <-]. exact L.
Qed.

Lemma length_scan_int (s t r : jsstring) :
  scan_int s = Some (t, r) ->
  length s = (length t + length r)%nat /\ (1 <= length t)%nat.
Proof.
  destruct s as [|c s]; [discriminate|]. cbn [scan_int].
  destruct (c =? 48); [intros [= <- <-]; cbn [length]; lia|].
  destruct (is_digit c); [|discriminate].
  pose proof (length_scan_digits s) as L. destruct (scan_digits s).
  intros [= <- <-]. cbn [fst snd length] in *. lia.
Qed.

Lemma length_scan_frac (s t r : jsstring) :
  scan_frac s = Some (t, r) -> length s = (length t + length r)%nat.
Proof.
  destruct s as [|c s]; [intros [= <- <-]; reflexivity|]. cbn [scan_frac].
  destruct (c =? 46); [|intros [= <- <-]; reflexivity].
  destruct (scan_digits1 s) as [[d r']|] eqn:E; [|discriminate].
  apply length_scan_digits1 in E. intros [= <- <-]. cbn [length]. lia.
Qed.

Lemma length_scan_exp (s t r : jsstring) :
  scan_exp s = Some (t, r) -> length s = (length t + length r)%nat.
Proof.
  destruct s as [|c s]; [intros [= <- <-]; reflexivity|]. cbn [scan_exp].
  destruct ((c =? 101) || (c =? 69)); [|intros [= <- <-]; reflexivity].
  destruct s as [|g s]; [discriminate|].
  destruct ((g =? 43) || (g =? 45)).
  - destruct (scan_digits1 s) as [[d r']|] eqn:E; [|discriminate].
    apply length_scan_digits1 in E. intros [= <- <-]. cbn [length]. lia.
  - destruct (scan_digits1 (g :: s)) as [[d r']|] eqn:E; [|discriminate].
    apply length_scan_digits1 in E. intros [= <- <-].
    cbn [length] in *. lia.
Qed.

Lemma length_scan_number (s t r : jsstring) :
  scan_number s = Some (t, r) -> (S (length r) <= length s)%nat.
Proof.
  unfold scan_number.
  assert (Hstep : forall sign s1,
    match scan_int s1 with
    | None => None
    | Some (i, s2) =>
        match scan_frac s2 with
        | None => None
        | Some (f, s3) =>
            match scan_exp s3 with
            | None => None
            | Some (e, s4) => Some (sign ++ i ++ f ++ e, s4)
            end
        end
    end = Some (t, r) -> (S (length r) <= length s1)%nat).
  { intros sign s1.
    destruct (scan_int s1) as [[i s2]|] eqn:Ei; [|discriminate].
    destruct (scan_frac s2) as [[f s3]|] eqn:Ef; [|discriminate].
    destruct (scan_exp s3) as [[e s4]|] eqn:Ee; [|discriminate].
    apply length_scan_int in Ei as [Ei Hi].
    apply length_scan_frac in Ef. apply length_scan_exp in Ee.
    intros [= <- <-]. lia. }
  destruct s as [|c s]; [discriminate|]. destruct (c =? 45).
  - intros H. apply Hstep in H. cbn [length]. lia.
  - apply Hstep.
Qed.

(** A value that is read with some fuel is read with the fuel of its
    size, and consumes at least as many units. *)
Lemma parse_fuel_size (n : nat) :
  (forall s v r, parse_value n s = Some (v, r) ->
     parse_value (size v) s = Some (v, r) /\
     (size v + length r <= length s)%nat) /\
  (forall s l r, parse_elements n s = Some (l, r) ->
     parse_elements (fold_right (fun x acc => S (size x + acc)) O l) s
     = Some (l, r) /\
     (fold_right (fun x acc => S (size x + acc)) O l + length r
      <= length s)%nat) /\
  (forall s m r, parse_members n s = Some (m, r) ->
     parse_members (fold_right (fun kv acc => S (size (snd kv) + acc)) O m) s
     = Some (m, r) /\
     (fold_right (fun kv acc => S (size (snd kv) + acc)) O m + length r
      <= length s)%nat).
Proof.
  induction n as [|n (IHv & IHe & IHm)];
    [repeat split; intros; discriminate|].
  split; [|split].
  - intros s v r. cbn [parse_value].
    destruct (skip_ws s) as [|c r0] eqn:Es; [discriminate|].
    apply skip_ws_cons in Es as Hlen.
    destruct (c =? 34) eqn:E1.
    { destruct (parse_chars r0) as [[x r']|] eqn:Ec; [|discriminate].
      intros [= <- <-]. cbn [size parse_value]. rewrite Es, E1, Ec.
      apply length_parse_chars in Ec. split; [reflexivity|lia]. }
    destruct (c =? 91) eqn:E2.
    { destruct (skip_ws r0) as [|d r'] eqn:Es'; [discriminate|].
      apply skip_ws_cons in Es' as Hlen'.
      destruct (d =? 93) eqn:E3.
      - intros [= <- <-]. cbn [size fold_right parse_value].
        rewrite Es, E1, E2, Es', E3. split; [reflexivity|lia].
      - destruct (parse_elements n r0) as [[l r'']|] eqn:Ee; [|discriminate].
        intros [= <- <-]. apply IHe in Ee as [Ee Hl].
        cbn [size parse_value]. rewrite Es, E1, E2, Es', E3, Ee.
        split; [reflexivity|lia]. }
    destruct (c =? 123) eqn:E3.
    { destruct (skip_ws r0) as [|d r'] eqn:Es'; [discriminate|].
      apply skip_ws_cons in Es' as Hlen'.
      destruct (d =? 125) eqn:E4.
      - intros [= <- <-]. cbn [size fold_right parse_value].
        rewrite Es, E1, E2, E3, Es', E4. split; [reflexivity|lia].
      - destruct (parse_members n r0) as [[l r'']|] eqn:Ee; [|discriminate].
        intros [= <- <-]. apply IHm in Ee as [Ee Hl].
        cbn [size parse_value]. rewrite Es, E1, E2, E3, Es', E4, Ee.
        split; [reflexivity|lia]. }
    destruct (strip_prefix (js "null") (c :: r0)) as [r'|] eqn:P1.
    { intros [= <- <-]. cbn [size parse_value]. rewrite Es, E1, E2, E3, P1.
      apply length_strip_prefix in P1.
      change (length (js "null")) with 4%nat in P1. cbn [length] in P1.
      split; [reflexivity|lia]. }
    destruct (strip_prefix (js "true") (c :: r0)) as [r'|] eqn:P2.
    { intros [= <- <-]. cbn [size parse_value].
      rewrite Es, E1, E2, E3, P1, P2.
      apply length_strip_prefix in P2.
      change (length (js "true")) with 4%nat in P2. cbn [length] in P2.
      split; [reflexivity|lia]. }
    destruct (strip_prefix (js "false") (c :: r0)) as [r'|] eqn:P3.
    { intros [= <- <-]. cbn [size parse_value].
      rewrite Es, E1, E2, E3, P1, P2, P3.
      apply length_strip_prefix in P3.
      change (length (js "false")) with 5%nat in P3. cbn [length] in P3.
      split; [reflexivity|lia]. }
    destruct (scan_number (c :: r0)) as [[t r']|] eqn:Sn; [|discriminate].
    intros [= <- <-]. cbn [size parse_value].
    rewrite Es, E1, E2, E3, P1, P2, P3, Sn.
    apply length_scan_number in Sn. cbn [length] in Sn.
    split; [reflexivity|lia].
  - intros s l r. cbn [parse_elements].
    destruct (parse_value n s) as [[v r0]|] eqn:Ev; [|discriminate].
    apply IHv in Ev as [Ev Hv].
    destruct (skip_ws r0) as [|d r'] eqn:Es; [discriminate|].
    apply skip_ws_cons in Es as Hlen.
    destruct (d =? 44) eqn:E1.
    + destruct (parse_elements n r') as [[l' r'']|] eqn:Ee; [|discriminate].
      intros [= <- <-]. apply IHe in Ee as [Ee Hl].
      cbn [fold_right parse_elements].
      rewrite (proj1 (parse_fuel_mono (size v)) _ _ _ (Nat.le_add_r _ _) Ev).
      rewrite Es, E1.
      rewrite (proj1 (proj2 (parse_fuel_mono _)) _ _ _ (Nat.le_add_l _ _) Ee).
      split; [reflexivity|lia].
    + destruct (d =? 93) eqn:E2; [|discriminate].
      intros [= <- <-]. cbn [fold_right parse_elements].
      rewrite (proj1 (parse_fuel_mono (size v)) _ _ _ (Nat.le_add_r _ _) Ev).
      rewrite Es, E1, E2. split; [reflexivity|lia].
  - intros s m r. cbn [parse_members].
    destruct (skip_ws s) as [|q r0] eqn:Es0; [discriminate|].
    apply skip_ws_cons in Es0 as Hlen0.
    destruct (q =? 34) eqn:Eq; [|discriminate].
    destruct (parse_chars r0) as [[k r1]|] eqn:Ec; [|discriminate].
    apply length_parse_chars in Ec as Hc.
    destruct (skip_ws r1) as [|c r2] eqn:Es1; [discriminate|].
    apply skip_ws_cons in Es1 as Hlen1.
    destruct (c =? 58) eqn:E58; [|discriminate].
    destruct (parse_value n r2) as [[v r3]|] eqn:Ev; [|discriminate].
    apply IHv in Ev as [Ev Hv].
    destruct (skip_ws r3) as [|d r4] eqn:Es; [discriminate|].
    apply skip_ws_cons in Es as Hlen.
    destruct (d =? 44) eqn:E1.
    + destruct (parse_members n r4) as [[m' r5]|] eqn:Ee; [|discriminate].
      intros [= <- <-]. apply IHm in Ee as [Ee Hl].
      cbn [fold_right parse_members snd].
      rewrite Es0, Eq, Ec, Es1, E58.
      rewrite (proj1 (parse_fuel_mono (size v)) _ _ _ (Nat.le_add_r _ _) Ev).
      rewrite Es, E1.
      rewrite (proj2 (proj2 (parse_fuel_mono _)) _ _ _ (Nat.le_add_l _ _) Ee).
      split; [reflexivity|lia].
    + destruct (d =? 125) eqn:E2; [|discriminate].
      intros [= <- <-]. cbn [fold_right parse_members snd].
      rewrite Es0, Eq, Ec, Es1, E58.
      rewrite (proj1 (parse_fuel_mono (size v)) _ _ _ (Nat.le_add_r _ _) Ev).
      rewrite Es, E1, E2. split; [reflexivity|lia].
Qed.

(** [JSON_parse] is what any larger fuel computes. *)
Lemma parse_value_fuel (m : nat) (s : jsstring) :
  (length s < m)%nat -> parse_value m s = parse_value (S (length s)) s.
Proof.
  intros Hm. destruct (parse_value m s) as [[v r]|] eqn:E.
  - apply (proj1 (parse_fuel_size m)) in E as [E Hlen]. symmetry.
    apply (proj1 (parse_fuel_mono (size v))); [lia|exact E].
  - destruct (parse_value (S (length s)) s) as [res|] eqn:E'; [|reflexivity].
    apply (proj1 (parse_fuel_mono (S (length s))) m) in E'; [|lia].
    congruence.
Qed.

Lemma JSON_parse_any_fuel (m : nat) (s r : jsstring) (v : json) :
  parse_value m s = Some (v, r) -> skip_ws r = [] -> JSON_parse s = Some v.
Proof.
  intros E Hr. unfold JSON_parse.
  apply (proj1 (parse_fuel_size m)) in E as [E Hlen].
  rewrite (proj1 (parse_fuel_mono (size v)) (S (length s)) _ _
             ltac:(lia) E), Hr.
  reflexivity.
Qed.

End JSONFacts.

(** ** Facts about the service *)

Section ServiceFacts.

Lemma wf_records (l : list HistoryItem) : wf (records l).
Proof.
  unfold records. cbn [wf]. induction l as [|h l IH]; [exact I|].
  split; [|exact IH]. cbn. tauto.
Qed.

Lemma truthy_stringify_records (l : list HistoryItem) :
  truthy (JSON_stringify (records l)) = true.
Proof. reflexivity. Qed.

Lemma parse_records (l : list HistoryItem) :
  JSON_parse (JSON_stringify (records l)) = Some (records l).
Proof. apply JSON_parse_stringify, wf_records. Qed.

Lemma item_json_inj (h h' : HistoryItem) : item_json h = item_json h' -> h = h'.
Proof.
  destruct h, h'. unfold item_json. cbn [HistoryService.id fileName date
    duration fileSize text preview]. intros [= -> -> -> -> -> -> ->].
  reflexivity.
Qed.

Lemma records_inj (l l' : list HistoryItem) : records l = records l' -> l = l'.
Proof.
  unfold records. intros [= H]. revert l' H.
  induction l as [|h l IH]; intros [|h' l'] H; try discriminate; [reflexivity|].
  cbn [map] in H.
  pose proof (f_equal (List.hd JNull) H) as H1.
  pose proof (f_equal (@List.tl json) H) as H2.
  f_equal; [apply item_json_inj, H1 | apply IH, H2].
Qed.

(** *** [getTranscriptionHistory], case by case *)

Lemma get_eval (e : Env) (w : World) :
  getTranscriptionHistory e w =
  match fault e P_getItem with
  | Some x =>
      (Val (JArr []),
       log_error (js "Error loading transcription history:") x w)
  | None =>
      match slot w with
      | Some s =>
          if truthy s then
            match JSON_parse s with
            | Some v => (Val v, w)
            | None =>
                (Val (JArr []),
                 log_error (js "Error loading transcription history:")
                   SyntaxError w)
            end
          else (Val (JArr []), w)
      | None => (Val (JArr []), w)
      end
  end.
Proof.
  cbv [getTranscriptionHistory try_catch bind localStorage_getItem guard
       slot JSON_parse_ ret throw].
  destruct (fault e P_getItem) as [x|]; [reflexivity|].
  destruct (localStorage w !! STORAGE_KEY) as [s|]; [|reflexivity].
  destruct (truthy s); [|reflexivity].
  destruct (JSON_parse s); reflexivity.
Qed.

Lemma get_returns (e : Env) (w : World) :
  exists v, fst (getTranscriptionHistory e w) = Val v.
Proof.
  rewrite get_eval.
  destruct (fault e P_getItem); [eexists; reflexivity|].
  destruct (slot w) as [s|]; [|eexists; reflexivity].
  destruct (truthy s); [|eexists; reflexivity].
  destruct (JSON_parse s); eexists; reflexivity.
Qed.

Lemma get_storage (e : Env) (w : World) :
  localStorage (snd (getTranscriptionHistory e w)) = localStorage w.
Proof.
  rewrite get_eval.
  destruct (fault e P_getItem); [reflexivity|].
  destruct (slot w) as [s|]; [|reflexivity].
  destruct (truthy s); [|reflexivity].
  destruct (JSON_parse s); reflexivity.
Qed.

(** With a working [getItem], the list read is the list held. *)
Lemma get_holds (e : Env) (w : World) (l : list HistoryItem) :
  fault e P_getItem = None -> holds w l ->
  fst (getTranscriptionHistory e w) = Val (records l).
Proof.
  intros He Hh. rewrite get_eval, He. unfold holds in Hh.
  destruct (slot w) as [s|]; [|subst l; reflexivity].
  destruct (truthy s); [|subst l; reflexivity].
  destruct (JSON_parse s); subst; reflexivity.
Qed.

Lemma holds_written (w : World) (l : list HistoryItem) :
  slot w = Some (JSON_stringify (records l)) -> holds w l.
Proof.
  intros H. unfold holds. rewrite H, truthy_stringify_records, parse_records.
  reflexivity.
Qed.

Lemma holds_absent (w : World) : slot w = None -> holds w [].
Proof. intros H. unfold holds. rewrite H. reflexivity. Qed.

Lemma holds_unique (w : World) (l l' : list HistoryItem) :
  holds w l -> holds w l' -> l = l'.
Proof.
  unfold holds. destruct (slot w) as [s|]; [|congruence].
  destruct (truthy s); [|congruence].
  destruct (JSON_parse s); [|congruence].
  intros -> H. apply records_inj, H.
Qed.

(** *** [saveTranscription], case by case *)

Lemma save_eval (result : TranscriptionResult) (e : Env) (w w1 : World)
    (v : json) :
  getTranscriptionHistory e w = (Val v, w1) ->
  saveTranscription result e w =
  match iterate v with
  | None =>
      (Val tt,
       log_error (js "Error saving transcription to history:") TypeError w1)
  | Some tail =>
      match fault e P_setItem with
      | Some x =>
          (Val tt,
           log_error (js "Error saving transcription to history:") x w1)
      | None =>
          (Val tt,
           log_info (js "Transcription saved to history:")
             (Some (ArgString (r_fileName result)))
             (set_localStorage
                (<[STORAGE_KEY :=
                     JSON_stringify
                       (JArr (take 100 (item_json (make_item e result) :: tail)))]>
                   (localStorage w1)) w1))
      end
  end.
Proof.
  intros Hget.
  cbv [saveTranscription try_catch bind]. rewrite Hget.
  cbv [ask spread ret throw localStorage_setItem guard bind].
  destruct (iterate v) as [tail|]; [|reflexivity].
  destruct (fault e P_setItem); reflexivity.
Qed.

(** *** [deleteTranscription], case by case *)

Lemma filterM_eval (id0 : jsstring) (l : list json) (e : Env) (w : World) :
  filterM (fun item =>
             let! item_id := get_property item (js "id") in
             ret (strict_ne_string item_id id0)) l e w =
  match keep_all id0 l with
  | Some l' => (Val l', w)
  | None => (Throw TypeError, w)
  end.
Proof.
  revert w. induction l as [|x l IH]; intros w; [reflexivity|].
  cbn [filterM keep_all]. unfold bind at 1 2.
  destruct x as [|b|t|s|a|m]; cbn [get_property keeps];
    cbv [bind throw ret]; try reflexivity;
    rewrite IH; destruct (keep_all id0 l); reflexivity.
Qed.

Lemma delete_eval (id0 : jsstring) (e : Env) (w w1 : World) (v : json) :
  getTranscriptionHistory e w = (Val v, w1) ->
  deleteTranscription id0 e w =
  match filtered id0 v with
  | None =>
      (Val tt,
       log_error (js "Error deleting transcription from history:")
         TypeError w1)
  | Some l' =>
      match fault e P_setItem with
      | Some x =>
          (Val tt,
           log_error (js "Error deleting transcription from history:") x w1)
      | None =>
          (Val tt,
           log_info (js "Transcription deleted from history:")
             (Some (ArgString id0))
             (set_localStorage
                (<[STORAGE_KEY := JSON_stringify (JArr l')]> (localStorage w1))
                w1))
      end
  end.
Proof.
  intros Hget.
  cbv [deleteTranscription try_catch]. unfold bind at 1 2. unfold bind at 2.
  rewrite Hget. unfold Array_filter, filtered.
  destruct v as [|b|t|s|l|m]; try reflexivity.
  rewrite filterM_eval.
  destruct (keep_all id0 l) as [l'|]; [|reflexivity].
  cbv [localStorage_setItem guard bind].
  destruct (fault e P_setItem); reflexivity.
Qed.

(** *** [clearAllHistory] *)

Lemma clear_eval (e : Env) (w : World) :
  clearAllHistory e w =
  match fault e P_removeItem with
  | Some x =>
      (Val tt, log_error (js "Error clearing transcription history:") x w)
  | None =>
      (Val tt,
       log_info (js "All transcription history cleared") None
         (set_localStorage (delete STORAGE_KEY (localStorage w)) w))
  end.
Proof.
  cbv [clearAllHistory try_catch bind localStorage_removeItem guard].
  destruct (fault e P_removeItem); reflexivity.
Qed.

(** *** Lists of records under the three operations *)

Lemma holds_storage (w w' : World) (l : list HistoryItem) :
  localStorage w' = localStorage w -> holds w l -> holds w' l.
Proof. unfold holds, slot. intros ->. auto. Qed.

Lemma take_records (n : nat) (l : list HistoryItem) :
  JArr (take n (map item_json l)) = records (take n l).
Proof. unfold records. rewrite fmap_take. reflexivity. Qed.

Lemma keep_all_records (id0 : jsstring) (l : list HistoryItem) :
  keep_all id0 (map item_json l) = Some (map item_json (without id0 l)).
Proof.
  induction l as [|h l IH]; [reflexivity|].
  cbn [map keep_all]. rewrite IH. unfold without.
  rewrite filter_cons.
  change (keeps id0 (item_json h)) with
    (Some (strict_ne_string (Some (JStr (id h))) id0)).
  cbn [strict_ne_string].
  destruct (decide (id h = id0)) as [E|E];
    destruct (decide (id h <> id0)) as [E'|E']; try reflexivity; tauto.
Qed.

(** What [getTranscriptionHistory] returns inside an operation; the
    storage is as before. *)
Lemma get_inside (e : Env) (w : World) (l : list HistoryItem) :
  holds w l ->
  exists w1,
    getTranscriptionHistory e w = (Val (records (read_inside e l)), w1) /\
    localStorage w1 = localStorage w.
Proof.
  intros Hh. pose proof (get_storage e w) as Hs. unfold read_inside.
  destruct (fault e P_getItem) as [x|] eqn:Ef.
  - rewrite get_eval, Ef in Hs |- *. eexists. split; [reflexivity|exact Hs].
  - pose proof (get_holds e w l Ef Hh) as Hv.
    destruct (getTranscriptionHistory e w) as [o w1]. cbn [fst snd] in *.
    subst o. exists w1. auto.
Qed.

(** A save returns normally; it stores the new record in front of what
    it read, cut to 100, unless the write throws, and then the storage is
    as before. *)
Lemma save_storage (result : TranscriptionResult) (e : Env) (w : World)
    (l : list HistoryItem) :
  holds w l ->
  fst (saveTranscription result e w) = Val tt /\
  localStorage (snd (saveTranscription result e w)) =
    match fault e P_setItem with
    | Some _ => localStorage w
    | None =>
        <[STORAGE_KEY :=
            JSON_stringify
              (records (take 100 (make_item e result :: read_inside e l)))]>
          (localStorage w)
    end.
Proof.
  intros Hh. destruct (get_inside e w l Hh) as (w1 & Hg & Hs).
  rewrite (save_eval result e w w1 _ Hg). cbn [iterate records].
  destruct (fault e P_setItem) eqn:Ef.
  - split; [reflexivity|exact Hs].
  - split; [reflexivity|].
    cbn [snd log_info set_console set_localStorage localStorage].
    rewrite Hs.
    change (item_json (make_item e result) :: map item_json (read_inside e l))
      with (map item_json (make_item e result :: read_inside e l)).
    rewrite take_records. reflexivity.
Qed.

Lemma delete_storage (id0 : jsstring) (e : Env) (w : World)
    (l : list HistoryItem) :
  holds w l ->
  fst (deleteTranscription id0 e w) = Val tt /\
  localStorage (snd (deleteTranscription id0 e w)) =
    match fault e P_setItem with
    | Some _ => localStorage w
    | None =>
        <[STORAGE_KEY :=
            JSON_stringify (records (without id0 (read_inside e l)))]>
          (localStorage w)
    end.
Proof.
  intros Hh. destruct (get_inside e w l Hh) as (w1 & Hg & Hs).
  rewrite (delete_eval id0 e w w1 _ Hg). cbn [filtered records].
  rewrite keep_all_records.
  destruct (fault e P_setItem) eqn:Ef.
  - split; [reflexivity|exact Hs].
  - split; [reflexivity|].
    cbn [snd log_info set_console set_localStorage localStorage].
    rewrite Hs. reflexivity.
Qed.

Lemma clear_storage (e : Env) (w : World) :
  fst (clearAllHistory e w) = Val tt /\
  localStorage (snd (clearAllHistory e w)) =
    match fault e P_removeItem with
    | Some _ => localStorage w
    | None => delete STORAGE_KEY (localStorage w)
    end.
Proof. rewrite clear_eval. destruct (fault e P_removeItem); auto. Qed.

Lemma holds_insert (w w' : World) (l : list HistoryItem) :
  localStorage w' =
    <[STORAGE_KEY := JSON_stringify (records l)]> (localStorage w) ->
  holds w' l.
Proof.
  intros H. apply holds_written. unfold slot. rewrite H.
  apply lookup_insert_eq.
Qed.

Lemma holds_delete (w w' : World) :
  localStorage w' = delete STORAGE_KEY (localStorage w) -> holds w' [].
Proof.
  intros H. apply holds_absent. unfold slot. rewrite H.
  apply lookup_delete_eq.
Qed.

Lemma read_inside_sublist (e : Env) (l : list HistoryItem) :
  read_inside e l `sublist_of` l.
Proof.
  unfold read_inside. destruct (fault e P_getItem);
    [apply sublist_nil_l|reflexivity].
Qed.

Lemma read_inside_ok (e : Env) (l : list HistoryItem) :
  fault e P_getItem = None -> read_inside e l = l.
Proof. unfold read_inside. intros ->. reflexivity. Qed.

(** *** Runs *)

Lemma run_snoc (w : World) (trace : list op) (o : op) :
  run w (trace ++ [o]) = step (run w trace) o.
Proof. unfold run. rewrite fold_left_app. reflexivity. Qed.

Lemma saved_snoc (trace : list op) (o : op) :
  saved (trace ++ [o]) =
  match built o with
  | Some h => h :: saved trace
  | None => saved trace
  end.
Proof.
  unfold saved. rewrite omap_app. simpl.
  destruct (built o) as [h|].
  - apply reverse_snoc.
  - rewrite app_nil_r. reflexivity.
Qed.

Lemma take_100_cons (h : HistoryItem) (l : list HistoryItem) :
  take 100 (h :: take 100 l) = take 100 (h :: l).
Proof.
  change (take 100 (h :: take 100 l)) with (h :: take 99 (take 100 l)).
  rewrite take_take. reflexivity.
Qed.

(** One operation, whatever throws, keeps the list within the bound and
    adds at most the record it builds, in front. *)
Lemma step_invariant (w : World) (o : op) (l : list HistoryItem) :
  holds w l -> (length l <= 100)%nat ->
  exists l', holds (step w o) l' /\ (length l' <= 100)%nat /\
    l' `sublist_of`
      match built o with
      | Some h => h :: l
      | None => l
      end.
Proof.
  intros Hh Hlen. destruct o as [e result|e id0|e]; cbn [step built].
  - destruct (save_storage result e w l Hh) as (_ & Hs).
    destruct (fault e P_setItem).
    + exists l. split; [exact (holds_storage _ _ _ Hs Hh)|].
      split; [exact Hlen|]. apply sublist_cons. reflexivity.
    + exists (take 100 (make_item e result :: read_inside e l)).
      split; [exact (holds_insert _ _ _ Hs)|].
      split; [rewrite length_take; lia|].
      transitivity (make_item e result :: read_inside e l);
        [apply sublist_take|].
      apply sublist_skip, read_inside_sublist.
  - destruct (delete_storage id0 e w l Hh) as (_ & Hs).
    destruct (fault e P_setItem).
    + exists l. split; [exact (holds_storage _ _ _ Hs Hh)|].
      split; [exact Hlen|reflexivity].
    + exists (without id0 (read_inside e l)).
      split; [exact (holds_insert _ _ _ Hs)|].
      assert (Hsub : without id0 (read_inside e l) `sublist_of` l).
      { transitivity (read_inside e l); [|apply read_inside_sublist].
        apply sublist_filter. }
      split; [|exact Hsub]. apply sublist_length in Hsub. lia.
  - destruct (clear_storage e w) as (_ & Hs).
    destruct (fault e P_removeItem).
    + exists l. split; [exact (holds_storage _ _ _ Hs Hh)|].
      split; [exact Hlen|reflexivity].
    + exists []. split; [exact (holds_delete _ _ Hs)|].
      split; [cbn; lia|apply sublist_nil_l].
Qed.

Lemma run_invariant (w0 : World) (trace : list op) :
  slot w0 = None ->
  exists l, holds (run w0 trace) l /\ (length l <= 100)%nat /\
            l `sublist_of` saved trace.
Proof.
  intros H0. induction trace as [|o trace IH] using rev_ind.
  - exists []. split; [apply holds_absent, H0|].
    split; [cbn; lia|apply sublist_nil_l].
  - destruct IH as (l & Hh & Hlen & Hsub).
    destruct (step_invariant (run w0 trace) o l Hh Hlen)
      as (l' & Hh' & Hlen' & Hsub').
    exists l'. rewrite run_snoc, saved_snoc.
    split; [exact Hh'|]. split; [exact Hlen'|].
    etransitivity; [exact Hsub'|].
    destruct (built o); [apply sublist_skip|]; exact Hsub.
Qed.

(** A save that meets no failure stores exactly the new record in front
    of the list held, cut to 100. *)
Lemma save_holds (result : TranscriptionResult) (e : Env) (w : World)
    (l : list HistoryItem) :
  holds w l -> storage_ok e ->
  holds (snd (saveTranscription result e w))
    (take 100 (make_item e result :: l)).
Proof.
  intros Hh (Hg & Hs & _).
  destruct (save_storage result e w l Hh) as (_ & Hw).
  rewrite Hs, (read_inside_ok e l Hg) in Hw. exact (holds_insert _ _ _ Hw).
Qed.

Lemma delete_holds (id0 : jsstring) (e : Env) (w : World)
    (l : list HistoryItem) :
  holds w l -> storage_ok e ->
  holds (snd (deleteTranscription id0 e w)) (without id0 l).
Proof.
  intros Hh (Hg & Hs & _).
  destruct (delete_storage id0 e w l Hh) as (_ & Hw).
  rewrite Hs, (read_inside_ok e l Hg) in Hw. exact (holds_insert _ _ _ Hw).
Qed.

(** Saves that meet no failure, from an empty slot: the store holds the
    hundred latest records, the latest first. *)
Lemma run_saves (w0 : World) (saves : list (Env * TranscriptionResult)) :
  slot w0 = None -> Forall (fun p => storage_ok (fst p)) saves ->
  holds (run w0 (save_all saves)) (take 100 (saved (save_all saves))).
Proof.
  intros H0. induction saves as [|[e result] saves IH] using rev_ind; intros Hok.
  - apply holds_absent, H0.
  - apply Forall_app in Hok as [Hok He]. apply Forall_cons_1 in He as [He _].
    specialize (IH Hok). unfold save_all in *. rewrite map_app. cbn [map fst snd].
    rewrite run_snoc, saved_snoc. cbn [built step].
    rewrite <- take_100_cons. apply save_holds; assumption.
Qed.

Lemma saved_save_all (saves : list (Env * TranscriptionResult)) :
  saved (save_all saves) =
  reverse (map (fun p => make_item (fst p) (snd p)) saves).
Proof.
  unfold saved, save_all. f_equal.
  induction saves as [|p saves IH]; [reflexivity|].
  cbn in *. f_equal. exact IH.
Qed.

(** *** A slot that holds valid JSON of another shape *)

(** What is read is then no array, and a save finds nothing to spread:
    it is dropped, and so is every later one. *)
Lemma save_dropped_on_non_array (result : TranscriptionResult) (e : Env)
    (w : World) (s : jsstring) (v : json) :
  fault e P_getItem = None -> slot w = Some s -> truthy s = true ->
  JSON_parse s = Some v -> iterate v = None ->
  fst (getTranscriptionHistory e w) = Val v /\
  localStorage (snd (saveTranscription result e w)) = localStorage w.
Proof.
  intros He Hs Ht Hp Hi.
  assert (Hg : getTranscriptionHistory e w = (Val v, w))
    by (rewrite get_eval, He, Hs, Ht, Hp; reflexivity).
  rewrite Hg, (save_eval result e w w v Hg), Hi. split; reflexivity.
Qed.

(** *** Every operation returns *)

Lemma get_pair (e : Env) (w : World) :
  exists v w1, getTranscriptionHistory e w = (Val v, w1) /\
               localStorage w1 = localStorage w.
Proof.
  destruct (get_returns e w) as (v & Hv). pose proof (get_storage e w) as Hs.
  destruct (getTranscriptionHistory e w) as [o w1]. cbn [fst snd] in *.
  subst o. eauto.
Qed.

Lemma get_fst_storage (e : Env) (w w' : World) :
  localStorage w' = localStorage w ->
  fst (getTranscriptionHistory e w') = fst (getTranscriptionHistory e w).
Proof.
  intros H. rewrite !get_eval. unfold slot. rewrite H.
  destruct (fault e P_getItem); [reflexivity|].
  destruct (localStorage w !! STORAGE_KEY) as [s|]; [|reflexivity].
  destruct (truthy s); [|reflexivity].
  destruct (JSON_parse s); reflexivity.
Qed.

Lemma save_returns (result : TranscriptionResult) (e : Env) (w : World) :
  fst (saveTranscription result e w) = Val tt /\
  (forall x, fault e P_setItem = Some x ->
     localStorage (snd (saveTranscription result e w)) = localStorage w).
Proof.
  destruct (get_pair e w) as (v & w1 & Hg & Hs).
  rewrite (save_eval result e w w1 v Hg).
  destruct (iterate v); [|split; [reflexivity|intros; exact Hs]].
  destruct (fault e P_setItem); split; try reflexivity.
  - intros _ _. exact Hs.
  - discriminate.
Qed.

Lemma delete_returns (id0 : jsstring) (e : Env) (w : World) :
  fst (deleteTranscription id0 e w) = Val tt /\
  (forall x, fault e P_setItem = Some x ->
     localStorage (snd (deleteTranscription id0 e w)) = localStorage w).
Proof.
  destruct (get_pair e w) as (v & w1 & Hg & Hs).
  rewrite (delete_eval id0 e w w1 v Hg).
  destruct (filtered id0 v); [|split; [reflexivity|intros; exact Hs]].
  destruct (fault e P_setItem); split; try reflexivity.
  - intros _ _. exact Hs.
  - discriminate.
Qed.

(** *** [downloadTranscription] *)

Lemma remove_first_snoc (a : Anchor) (l : list Anchor) :
  exists l', remove_first a (l ++ [a]) = Some l'.
Proof.
  induction l as [|b l (l' & IH)]; cbn [app remove_first].
  - rewrite decide_True by auto. eauto.
  - destruct (decide _); [eauto|]. rewrite IH. cbn. eauto.
Qed.

Lemma download_returns (item : HistoryItem) (e : Env) (w : World) :
  fst (downloadTranscription item e w) = Val tt /\
  localStorage (snd (downloadTranscription item e w)) = localStorage w.
Proof.
  cbv [downloadTranscription try_catch bind guard document_createElement_a
       new_Blob URL_createObjectURL document_body_appendChild element_click
       document_body_removeChild console_log console_error console_write ret].
  repeat match goal with
         | |- context [fault e ?p] => destruct (fault e p)
         | |- context [url_lookup ?u ?h] => destruct (url_lookup u h)
         | |- context [remove_first ?a ?l] => destruct (remove_first a l)
         end; split; reflexivity.
Qed.

Lemma download_eval (item : HistoryItem) (e : Env) (w : World) :
  no_faults e ->
  downloads (snd (downloadTranscription item e w)) =
  downloads w ++
    [(strip_extension (fileName item) ++ js "_transcript.txt",
      {| blob_parts := [text item]; blob_type := js "text/plain" |})].
Proof.
  intros Hnf.
  cbv [downloadTranscription try_catch bind guard document_createElement_a
       new_Blob URL_createObjectURL document_body_appendChild element_click
       document_body_removeChild console_log console_error console_write ret].
  rewrite !Hnf.
  cbn [object_urls set_object_urls set_body url_lookup href download body
       downloads set_downloads set_console].
  rewrite decide_True by reflexivity.
  cbn [object_urls set_object_urls set_body url_lookup href download body
       downloads set_downloads set_console].
  destruct (remove_first_snoc
              {| href := blob_url e;
                 download := strip_extension (fileName item) ++
                             js "_transcript.txt" |} (body w)) as (l' & ->).
  reflexivity.
Qed.

(** *** The extension pattern *)

Lemma ext_body_spec (ext : jsstring) :
  ext_body ext = true <-> is_extension ext.
Proof.
  unfold ext_body, is_extension. destruct ext as [|c ext].
  - split; [discriminate|]. intros [H _]. congruence.
  - rewrite forallb_forall. split.
    + intros H. split; [discriminate|]. intros d Hd.
      apply list_elem_of_In, H in Hd.
      apply andb_true_iff in Hd as [H1 H2].
      apply negb_true_iff, N.eqb_neq in H1, H2. auto.
    + intros [_ H] d Hd. apply list_elem_of_In, H in Hd as [H1 H2].
      apply andb_true_iff. split; apply negb_true_iff, N.eqb_neq; assumption.
Qed.

Lemma ext_body_dot (s ext : jsstring) : ext_body (s ++ 46 :: ext) = false.
Proof.
  apply not_true_iff_false. intros H. apply ext_body_spec in H as [_ H].
  destruct (H 46) as [H1 _]; [|congruence].
  apply elem_of_app. right. left.
Qed.

Lemma strip_extension_stem (base ext : jsstring) :
  ext_body ext = true -> strip_extension (base ++ 46 :: ext) = base.
Proof.
  intros He. induction base as [|c base IH]; cbn [app strip_extension].
  - rewrite He. reflexivity.
  - rewrite ext_body_dot, andb_false_r, IH. reflexivity.
Qed.

Lemma strip_extension_none (s : jsstring) :
  (forall base ext, s = base ++ 46 :: ext -> ext_body ext = false) ->
  strip_extension s = s.
Proof.
  induction s as [|c s IH]; [reflexivity|]. intros H.
  cbn [strip_extension].
  destruct (N.eqb_spec c 46) as [->|Hc].
  - rewrite (H [] s eq_refl). cbn [andb]. f_equal. apply IH.
    intros base ext ->. apply (H (46 :: base) ext). reflexivity.
  - cbn [andb]. f_equal. apply IH.
    intros base ext ->. apply (H (c :: base) ext). reflexivity.
Qed.

End ServiceFacts.

(** ** The claims *)

Section Claims.

Lemma matches_make_item (e : Env) (result result' : TranscriptionResult) :
  matches result (make_item e result') -> result' = result.
Proof.
  destruct result, result'. unfold matches.
  cbn [make_item text fileName duration fileSize date
       r_text r_fileName r_duration r_fileSize r_date].
  intros (-> & -> & -> & -> & ->). reflexivity.
Qed.

Lemma matches_self (e : Env) (result : TranscriptionResult) :
  matches result (make_item e result).
Proof. unfold matches. cbn. auto. Qed.

(** C1. Starting from a store with nothing under the key, after any
    sequence of saves, deletes and clears, whichever of their storage
    accesses fail, the list read back has at most 100 records and is a
    subsequence of the records ever built by the saves, latest first (so the
    records appear most recently saved first). And after 101 saves of
    pairwise distinct results that meet no storage failure, the list read
    back has exactly 100 records: those of the last 100 saves, latest
    first; no record in it carries the fields of the first result saved. *)
Theorem history_bounded_recent_first (w0 : World) (trace : list op)
    (saves : list (Env * TranscriptionResult)) (e : Env) :
  slot w0 = None ->
  fault e P_getItem = None ->
  length saves = 101%nat ->
  Forall (fun p => storage_ok (fst p)) saves ->
  NoDup (map snd saves) ->
  (exists l,
     fst (getTranscriptionHistory e (run w0 trace)) = Val (records l) /\
     (length l <= 100)%nat /\
     l `sublist_of` saved trace) /\
  (exists l,
     fst (getTranscriptionHistory e (run w0 (save_all saves)))
     = Val (records l) /\
     length l = 100%nat /\
     l = reverse (map (fun p => make_item (fst p) (snd p)) (drop 1 saves)) /\
     forall p, head saves = Some p ->
     forall h, h ∈ l -> ~ matches (snd p) h).
Proof.
  intros H0 He Hlen Hok Hnd. split.
  - destruct (run_invariant w0 trace H0) as (l & Hh & Hl & Hsub).
    exists l. split; [exact (get_holds e _ l He Hh)|]. auto.
  - pose proof (run_saves w0 saves H0 Hok) as Hh.
    rewrite saved_save_all, take_reverse, length_map, Hlen in Hh.
    change (101 - 100)%nat with 1%nat in Hh.
    change (drop 1 (map (fun p => make_item (fst p) (snd p)) saves))
      with (drop 1 ((fun p => make_item (fst p) (snd p)) <$> saves)) in Hh.
    rewrite <- fmap_drop in Hh.
    eexists. split; [exact (get_holds e _ _ He Hh)|].
    split; [rewrite length_reverse, length_fmap, length_drop; lia|].
    split; [reflexivity|].
    intros p Hp h Hin Hm.
    destruct saves as [|p' rest]; [discriminate|].
    injection Hp as ->. cbn [drop] in Hin.
    apply elem_of_reverse, list_elem_of_fmap in Hin as (q & -> & Hq).
    apply matches_make_item in Hm.
    cbn [map] in Hnd. apply NoDup_cons in Hnd as [Hnotin _].
    apply Hnotin. rewrite <- Hm.
    change (map snd rest) with (snd <$> rest).
    apply list_elem_of_fmap. exists q. auto.
Qed.

Lemma history_bounded_recent_first_witness :
  slot Samples.blank = None /\
  (exists l,
     fst (getTranscriptionHistory Samples.quiet
            (run Samples.blank Samples.sample_trace)) = Val (records l) /\
     (length l <= 100)%nat /\
     l `sublist_of` saved Samples.sample_trace) /\
  (exists l,
     fst (getTranscriptionHistory Samples.quiet
            (run Samples.blank (save_all Samples.sample_saves)))
     = Val (records l) /\
     length l = 100%nat /\
     l = reverse (map (fun p => make_item (fst p) (snd p))
                    (drop 1 Samples.sample_saves)) /\
     forall p, head Samples.sample_saves = Some p ->
     forall h, h ∈ l -> ~ matches (snd p) h).
Proof.
  split; [reflexivity|].
  apply (history_bounded_recent_first Samples.blank Samples.sample_trace
           Samples.sample_saves Samples.quiet).
  - reflexivity.
  - reflexivity.
  - reflexivity.
  - unfold Samples.sample_saves. apply Forall_forall. intros p Hp.
    apply list_elem_of_In, in_map_iff in Hp as (n & <- & _). repeat split.
  - apply (bool_decide_unpack _). vm_compute. exact I.
Defined.

(** C2. On a store that holds a list of records, and with the storage
    working, a save followed by a read yields the list whose first
    element is the record built from the result, with the result's text,
    file name, duration, file size and date, followed by the first 99
    records held before. *)
Theorem save_then_list (result : TranscriptionResult) (e e' : Env)
    (w : World) (l : list HistoryItem) :
  holds w l -> storage_ok e -> fault e' P_getItem = None ->
  fst (getTranscriptionHistory e' (snd (saveTranscription result e w)))
  = Val (records (make_item e result :: take 99 l)) /\
  matches result (make_item e result).
Proof.
  intros Hh Hok He'. split; [|apply matches_self].
  apply get_holds; [exact He'|].
  exact (save_holds result e w l Hh Hok).
Qed.

Lemma save_then_list_witness :
  holds Samples.stocked Samples.stocked_list /\
  fst (getTranscriptionHistory Samples.quiet
         (snd (saveTranscription Samples.long_talk (Samples.at_time 3)
                 Samples.stocked)))
  = Val (records (make_item (Samples.at_time 3) Samples.long_talk
                    :: take 99 Samples.stocked_list)) /\
  matches Samples.long_talk (make_item (Samples.at_time 3) Samples.long_talk).
Proof.
  assert (H : holds Samples.stocked Samples.stocked_list)
    by (vm_compute; reflexivity).
  split; [exact H|].
  apply (save_then_list Samples.long_talk (Samples.at_time 3) Samples.quiet
           Samples.stocked Samples.stocked_list H).
  - repeat split.
  - reflexivity.
Defined.

Lemma substring_0 (t : jsstring) (n : nat) : substring t 0 n = take n t.
Proof.
  unfold substring. cbn [Nat.min]. rewrite Nat.max_0_l, Nat.sub_0_r.
  cbn [drop]. destruct (Nat.min_spec n (length t)) as [[_ ->] | [H ->]];
    [reflexivity|].
  rewrite (take_ge t n) by exact H. apply take_ge. reflexivity.
Qed.

(** C3. The preview of the record a save builds is the first 150 units of
    the text followed by the three-unit marker when the text is longer
    than 150 units, and the text itself otherwise; for a text of 200
    units it has 153 units. *)
Theorem preview_truncates (e : Env) (result : TranscriptionResult) :
  preview (make_item e result) =
    (if (150 <? length (r_text result))%nat
     then take 150 (r_text result) ++ js "..."
     else r_text result) /\
  (length (r_text result) = 200%nat ->
   length (preview (make_item e result)) = 153%nat).
Proof.
  cbn [preview make_item]. unfold make_preview. rewrite substring_0.
  split.
  - destruct (Nat.ltb_spec 150 (length (r_text result))); [reflexivity|].
    rewrite take_ge by lia. apply app_nil_r.
  - intros H. rewrite H. cbn [Nat.ltb Nat.leb].
    rewrite length_app, length_take, H. reflexivity.
Qed.

Lemma preview_truncates_witness :
  length (r_text Samples.long_talk) = 200%nat /\
  length (preview (make_item Samples.quiet Samples.long_talk)) = 153%nat.
Proof.
  split; [reflexivity|].
  apply (preview_truncates Samples.quiet Samples.long_talk). reflexivity.
Defined.

Lemma without_length (id0 : jsstring) (l : list HistoryItem) :
  (length (without id0 l) + length (filter (fun h => id h = id0) l)
   = length l)%nat.
Proof.
  unfold without. induction l as [|h l IH]; [reflexivity|].
  rewrite !filter_cons.
  destruct (decide (id h <> id0)), (decide (id h = id0));
    cbn [length]; try lia; tauto.
Qed.

Lemma without_absent (id0 : jsstring) (l : list HistoryItem) :
  (forall h, h ∈ l -> id h <> id0) -> without id0 l = l.
Proof.
  unfold without. induction l as [|h l IH]; [reflexivity|]. intros H.
  rewrite filter_cons_True by (apply H; left).
  f_equal. apply IH. intros h' Hh'. apply H. right. exact Hh'.
Qed.

(** C4. On a store that holds a list of records, and with the storage
    working, a delete returns normally and the list read afterwards is
    the list held before without the records of that id: a subsequence of
    it (same relative order) with exactly the records of another id.
    When one record carries the id, it is the only one removed; when none
    does, the list read is the list held before. *)
Theorem delete_removes_record (id0 : jsstring) (e e' : Env) (w : World)
    (l : list HistoryItem) :
  holds w l -> storage_ok e -> fault e' P_getItem = None ->
  fst (deleteTranscription id0 e w) = Val tt /\
  exists l',
    fst (getTranscriptionHistory e' (snd (deleteTranscription id0 e w)))
    = Val (records l') /\
    l' `sublist_of` l /\
    (forall h, h ∈ l' <-> h ∈ l /\ id h <> id0) /\
    (forall l1 x l2, l = l1 ++ x :: l2 -> id x = id0 ->
       (forall h, h ∈ l1 ++ l2 -> id h <> id0) -> l' = l1 ++ l2) /\
    ((forall h, h ∈ l -> id h <> id0) -> l' = l).
Proof.
  intros Hh Hok He'.
  split; [exact (proj1 (delete_storage id0 e w l Hh))|].
  exists (without id0 l).
  split; [apply get_holds; [exact He'|exact (delete_holds id0 e w l Hh Hok)]|].
  split; [apply sublist_filter|].
  split; [intros h; unfold without; rewrite list_elem_of_filter; tauto|].
  split; [|apply without_absent].
  intros l1 x l2 -> Hx Hrest. unfold without.
  rewrite filter_app, filter_cons_False by tauto.
  rewrite <- filter_app. apply without_absent, Hrest.
Qed.

Lemma delete_removes_record_witness :
  holds Samples.stocked Samples.stocked_list /\
  exists l',
    fst (getTranscriptionHistory Samples.quiet
           (snd (deleteTranscription Samples.first_id Samples.quiet
                   Samples.stocked)))
    = Val (records l') /\ l' `sublist_of` Samples.stocked_list.
Proof.
  assert (H : holds Samples.stocked Samples.stocked_list)
    by (vm_compute; reflexivity).
  split; [exact H|].
  destruct (delete_removes_record Samples.first_id Samples.quiet Samples.quiet
              Samples.stocked Samples.stocked_list H)
    as (_ & l' & Hl' & Hsub & _).
  - repeat split.
  - reflexivity.
  - exists l'. split; assumption.
Defined.

(** C9. On a store that holds a list of records, and with the storage
    working, after a delete no record of the list read carries the id:
    every record with that id is gone, however many there were, and every
    other record is still there. *)
Theorem delete_removes_all_with_id (id0 : jsstring) (e e' : Env) (w : World)
    (l : list HistoryItem) :
  holds w l -> storage_ok e -> fault e' P_getItem = None ->
  exists l',
    fst (getTranscriptionHistory e' (snd (deleteTranscription id0 e w)))
    = Val (records l') /\
    (forall h, h ∈ l' -> id h <> id0) /\
    (forall h, h ∈ l -> id h <> id0 -> h ∈ l') /\
    (length l' + length (filter (fun h => id h = id0) l) = length l)%nat.
Proof.
  intros Hh Hok He'. exists (without id0 l).
  split; [apply get_holds; [exact He'|exact (delete_holds id0 e w l Hh Hok)]|].
  split; [intros h Hin; apply list_elem_of_filter in Hin; tauto|].
  split; [intros h Hin Hne; apply list_elem_of_filter; tauto|].
  apply without_length.
Qed.

Lemma delete_removes_all_with_id_witness :
  holds Samples.twins Samples.twins_list /\
  length (filter (fun h => id h = Samples.first_id) Samples.twins_list)
  = 2%nat /\
  exists l',
    fst (getTranscriptionHistory Samples.quiet
           (snd (deleteTranscription Samples.first_id Samples.quiet
                   Samples.twins)))
    = Val (records l') /\
    (forall h, h ∈ l' -> id h <> Samples.first_id) /\
    length l' = 1%nat.
Proof.
  assert (H : holds Samples.twins Samples.twins_list)
    by (vm_compute; reflexivity).
  assert (H2 : length (filter (fun h => id h = Samples.first_id)
                         Samples.twins_list) = 2%nat)
    by (vm_compute; reflexivity).
  split; [exact H|]. split; [exact H2|].
  destruct (delete_removes_all_with_id Samples.first_id Samples.quiet
              Samples.quiet Samples.twins Samples.twins_list H)
    as (l' & Hl' & Hnone & _ & Hlen).
  - repeat split.
  - reflexivity.
  - exists l'. split; [exact Hl'|]. split; [exact Hnone|].
    rewrite H2 in Hlen. change (length Samples.twins_list) with 3%nat in Hlen.
    lia.
Defined.

(** C5. [getTranscriptionHistory] never throws, and returns the empty
    array when the slot is absent, empty or holds a text [JSON.parse]
    rejects; but a slot that holds valid JSON which is not an array is
    returned as it is: on the text [null] the result is [null], which is
    no sequence. *)
Theorem list_on_valid_non_array :
  (forall e w, exists v, fst (getTranscriptionHistory e w) = Val v) /\
  (forall e w, fault e P_getItem = None -> slot w = None ->
     fst (getTranscriptionHistory e w) = Val (JArr [])) /\
  (forall e w s, fault e P_getItem = None -> slot w = Some s ->
     JSON_parse s = None ->
     fst (getTranscriptionHistory e w) = Val (JArr [])) /\
  JSON_parse (js "null") = Some JNull /\
  fst (getTranscriptionHistory Samples.quiet (Samples.with_slot (js "null")))
  = Val JNull /\
  is_sequence JNull = false.
Proof.
  split; [exact get_returns|].
  split; [intros e w He Hs; rewrite get_eval, He, Hs; reflexivity|].
  split; [|repeat split; vm_compute; reflexivity].
  intros e w s He Hs Hp. rewrite get_eval, He, Hs, Hp.
  destruct (truthy s); reflexivity.
Qed.

(** C6. Whatever the storage holds and whichever primitives throw, each
    of the five operations returns normally. When the write of a save (or
    of a delete) throws, the storage is left exactly as it was. *)
Theorem operations_never_throw (e : Env) (w : World)
    (result : TranscriptionResult) (id0 : jsstring) (item : HistoryItem) :
  returns (saveTranscription result e w) /\
  returns (getTranscriptionHistory e w) /\
  returns (deleteTranscription id0 e w) /\
  returns (clearAllHistory e w) /\
  returns (downloadTranscription item e w) /\
  (forall x, fault e P_setItem = Some x ->
     localStorage (snd (saveTranscription result e w)) = localStorage w /\
     localStorage (snd (deleteTranscription id0 e w)) = localStorage w).
Proof.
  unfold returns.
  rewrite (proj1 (save_returns result e w)),
    (proj1 (delete_returns id0 e w)), (proj1 (clear_storage e w)),
    (proj1 (download_returns item e w)).
  destruct (get_returns e w) as (v & ->).
  repeat split; try exact I.
  - exact (proj2 (save_returns result e w) x H).
  - exact (proj2 (delete_returns id0 e w) x H).
Qed.

Lemma operations_never_throw_witness :
  fault Samples.full_disk P_setItem = Some QuotaExceededError /\
  returns (saveTranscription Samples.long_talk Samples.full_disk
             Samples.stocked) /\
  localStorage (snd (saveTranscription Samples.long_talk Samples.full_disk
                       Samples.stocked))
  = localStorage Samples.stocked.
Proof.
  split; [reflexivity|].
  destruct (operations_never_throw Samples.full_disk Samples.stocked
              Samples.long_talk Samples.first_id
              (make_item Samples.quiet Samples.long_talk))
    as (Hsave & _ & _ & _ & _ & Hkeep).
  split; [exact Hsave|].
  exact (proj1 (Hkeep QuotaExceededError eq_refl)).
Defined.

(** C7. Whatever the storage holds, a clear whose [removeItem] works
    returns normally and removes the entry of the key, and of that key
    only; a read that follows returns the empty array. *)
Theorem clear_then_list (e e' : Env) (w : World) :
  fault e P_removeItem = None -> fault e' P_getItem = None ->
  fst (clearAllHistory e w) = Val tt /\
  localStorage (snd (clearAllHistory e w))
  = delete STORAGE_KEY (localStorage w) /\
  slot (snd (clearAllHistory e w)) = None /\
  fst (getTranscriptionHistory e' (snd (clearAllHistory e w)))
  = Val (JArr []).
Proof.
  intros He He'. destruct (clear_storage e w) as (Hr & Hs).
  rewrite He in Hs.
  assert (Hslot : slot (snd (clearAllHistory e w)) = None).
  { unfold slot. rewrite Hs. apply lookup_delete_eq. }
  split; [exact Hr|]. split; [exact Hs|]. split; [exact Hslot|].
  rewrite get_eval, He', Hslot. reflexivity.
Qed.

Lemma clear_then_list_witness :
  slot Samples.stocked <> None /\
  slot (snd (clearAllHistory Samples.quiet Samples.stocked)) = None /\
  fst (getTranscriptionHistory Samples.quiet
         (snd (clearAllHistory Samples.quiet Samples.stocked)))
  = Val (JArr []).
Proof.
  split; [vm_compute; discriminate|].
  destruct (clear_then_list Samples.quiet Samples.quiet Samples.stocked)
    as (_ & _ & Hslot & Hlist); [reflexivity|reflexivity|].
  split; assumption.
Defined.

(** C8. With the DOM working, an export triggers one download: its name
    is the file name with its trailing extension removed, followed by
    [_transcript.txt]; its content is the text of the record; and the
    storage, hence the list read, is as before. The extension removed is
    what follows the last dot, that dot included, when it is not empty
    and holds no slash; a name without one is kept whole. *)
Theorem export_download (item : HistoryItem) (e : Env) (w : World) :
  no_faults e ->
  downloads (snd (downloadTranscription item e w)) =
    downloads w ++
      [(strip_extension (fileName item) ++ js "_transcript.txt",
        {| blob_parts := [text item]; blob_type := js "text/plain" |})] /\
  localStorage (snd (downloadTranscription item e w)) = localStorage w /\
  (forall e', fst (getTranscriptionHistory e'
                     (snd (downloadTranscription item e w)))
              = fst (getTranscriptionHistory e' w)) /\
  (forall base ext, fileName item = base ++ 46 :: ext -> is_extension ext ->
     strip_extension (fileName item) = base) /\
  ((forall base ext, fileName item = base ++ 46 :: ext -> ~ is_extension ext) ->
   strip_extension (fileName item) = fileName item).
Proof.
  intros Hnf. destruct (download_returns item e w) as (_ & Hs).
  split; [exact (download_eval item e w Hnf)|].
  split; [exact Hs|].
  split; [intros e'; apply get_fst_storage, Hs|].
  split.
  - intros base ext -> Hext. apply strip_extension_stem, ext_body_spec, Hext.
  - intros H. apply strip_extension_none. intros base ext Heq.
    apply not_true_iff_false. rewrite ext_body_spec. exact (H base ext Heq).
Qed.

Lemma export_download_witness :
  no_faults Samples.quiet /\
  downloads (snd (downloadTranscription
                    (make_item Samples.quiet (Samples.talk 1))
                    Samples.quiet Samples.stocked))
  = [(js "talk.final_transcript.txt",
      {| blob_parts := [r_text (Samples.talk 1)];
         blob_type := js "text/plain" |})] /\
  localStorage (snd (downloadTranscription
                       (make_item Samples.quiet (Samples.talk 1))
                       Samples.quiet Samples.stocked))
  = localStorage Samples.stocked.
Proof.
  assert (Hq : no_faults Samples.quiet) by (intros p; reflexivity).
  split; [exact Hq|].
  destruct (export_download (make_item Samples.quiet (Samples.talk 1))
              Samples.quiet Samples.stocked Hq) as (Hd & Hs & _).
  split; [|exact Hs]. rewrite Hd. vm_compute. reflexivity.
Defined.

(** C10. When the slot holds a text that [JSON.parse] rejects and the
    storage works, a save returns normally and replaces the text by the
    serialisation of the one-element list of the record it builds, which
    is what a read then returns. *)
Theorem save_over_corrupt (result : TranscriptionResult) (e e' : Env)
    (w : World) (s : jsstring) :
  slot w = Some s -> JSON_parse s = None ->
  storage_ok e -> fault e' P_getItem = None ->
  fst (saveTranscription result e w) = Val tt /\
  slot (snd (saveTranscription result e w))
  = Some (JSON_stringify (records [make_item e result])) /\
  fst (getTranscriptionHistory e' (snd (saveTranscription result e w)))
  = Val (records [make_item e result]).
Proof.
  intros Hs Hp Hok He'.
  assert (Hh : holds w []).
  { unfold holds. rewrite Hs, Hp. destruct (truthy s); reflexivity. }
  destruct (save_storage result e w [] Hh) as (Hr & Hw).
  destruct Hok as (Hg & Hset & _).
  rewrite Hset, (read_inside_ok e [] Hg) in Hw.
  split; [exact Hr|].
  split; [unfold slot; rewrite Hw; apply lookup_insert_eq|].
  apply get_holds; [exact He'|]. exact (holds_insert _ _ _ Hw).
Qed.

Lemma save_over_corrupt_witness :
  JSON_parse (js "[{broken") = None /\
  fst (getTranscriptionHistory Samples.quiet
         (snd (saveTranscription Samples.long_talk Samples.quiet
                 (Samples.with_slot (js "[{broken")))))
  = Val (records [make_item Samples.quiet Samples.long_talk]).
Proof.
  assert (Hp : JSON_parse (js "[{broken") = None) by (vm_compute; reflexivity).
  split; [exact Hp|].
  destruct (save_over_corrupt Samples.long_talk Samples.quiet Samples.quiet
              (Samples.with_slot (js "[{broken")) (js "[{broken"))
    as (_ & _ & Hlist).
  - vm_compute. reflexivity.
  - exact Hp.
  - repeat split.
  - reflexivity.
  - exact Hlist.
Defined.

End Claims.

(** ** Beyond the claims: more of the service *)

Section MoreServiceFacts.

(** *** Identifiers *)

Lemma uint_units_inj (d d' : Decimal.uint) :
  uint_units d = uint_units d' -> d = d'.
Proof.
  revert d'. induction d as [|d IH|d IH|d IH|d IH|d IH|d IH|d IH|d IH|d IH|d IH];
    intros [|d'|d'|d'|d'|d'|d'|d'|d'|d'|d']; cbn [uint_units];
    intros H; try discriminate H; try reflexivity;
    injection H as H; f_equal; apply IH, H.
Qed.

Lemma uint_units_digits (d : Decimal.uint) :
  Forall (fun c => c <> 45) (uint_units d).
Proof.
  induction d; cbn [uint_units]; constructor; try assumption; discriminate.
Qed.

(** Two texts cut at a dash that the parts before it do not contain are
    equal part by part. *)
Lemma split_at_dash (a a' b b' : jsstring) :
  Forall (fun c => c <> 45) a -> Forall (fun c => c <> 45) a' ->
  a ++ 45 :: b = a' ++ 45 :: b' -> a = a' /\ b = b'.
Proof.
  intros Ha. revert a'. induction Ha as [|c a Hc _ IH]; intros a' Ha' H.
  - destruct Ha' as [|c' a' Hc' _]; cbn [app] in H.
    + injection H as ->. auto.
    + injection H as <- _. congruence.
  - destruct Ha' as [|c' a' Hc' Ha']; cbn [app] in H.
    + injection H as -> _. congruence.
    + injection H as -> H. destruct (IH a' Ha' H) as [-> ->]. auto.
Qed.

(** *** What an operation does to the storage, whatever it holds *)

Lemma save_storage_any (result : TranscriptionResult) (e : Env) (w : World) :
  localStorage (snd (saveTranscription result e w)) = localStorage w \/
  exists text,
    localStorage (snd (saveTranscription result e w))
    = <[STORAGE_KEY := text]> (localStorage w).
Proof.
  destruct (get_pair e w) as (v & w1 & Hg & Hs).
  rewrite (save_eval result e w w1 v Hg).
  destruct (iterate v); [|left; exact Hs].
  destruct (fault e P_setItem); [left; exact Hs|].
  right. eexists.
  cbn [snd log_info set_console set_localStorage localStorage].
  rewrite Hs. reflexivity.
Qed.

Lemma delete_storage_any (id0 : jsstring) (e : Env) (w : World) :
  localStorage (snd (deleteTranscription id0 e w)) = localStorage w \/
  exists text,
    localStorage (snd (deleteTranscription id0 e w))
    = <[STORAGE_KEY := text]> (localStorage w).
Proof.
  destruct (get_pair e w) as (v & w1 & Hg & Hs).
  rewrite (delete_eval id0 e w w1 v Hg).
  destruct (filtered id0 v); [|left; exact Hs].
  destruct (fault e P_setItem); [left; exact Hs|].
  right. eexists.
  cbn [snd log_info set_console set_localStorage localStorage].
  rewrite Hs. reflexivity.
Qed.

Lemma keep_all_null (id0 : jsstring) (l : list json) :
  JNull ∈ l -> keep_all id0 l = None.
Proof.
  induction l as [|x l IH]; intros Hin; [inversion Hin|].
  apply elem_of_cons in Hin as [<- | Hin]; [reflexivity|].
  cbn [keep_all]. rewrite (IH Hin). destruct (keeps id0 x); reflexivity.
Qed.

Lemma without_without (a b : jsstring) (l : list HistoryItem) :
  without a (without b l) = without b (without a l).
Proof.
  unfold without. rewrite !list_filter_filter.
  apply list_filter_iff. intros h. tauto.
Qed.

Lemma without_twice (a : jsstring) (l : list HistoryItem) :
  without a (without a l) = without a l.
Proof.
  unfold without. rewrite list_filter_filter.
  apply list_filter_iff. intros h. tauto.
Qed.

End MoreServiceFacts.

Section MoreOfTheService.

(** X1. The records built by two saves carry the same id exactly when the
    clock read the same millisecond and the random source gave the same
    units at positions 2 to 8 of its base-36 text: nothing else enters
    the id. *)
Theorem id_collision (e e' : Env) (result result' : TranscriptionResult) :
  id (make_item e result) = id (make_item e' result') <->
  Date_now e = Date_now e' /\
  substring (Math_random_base36 e) 2 9
  = substring (Math_random_base36 e') 2 9.
Proof.
  cbn [id make_item]. change (js "-") with [45]. cbn [app]. split.
  - intros H.
    apply split_at_dash in H as [H1 H2]; try apply uint_units_digits.
    split; [|exact H2].
    apply DecimalN.Unsigned.to_uint_inj, uint_units_inj, H1.
  - intros [-> ->]. reflexivity.
Qed.

(** X2. On a store that holds a list in which no record carries the id
    about to be given, and with the storage working, saving a result and
    then deleting the record just saved leaves the first 99 records of
    the list: the list is back exactly when it had fewer than 100
    records, and a full list has lost its oldest record. *)
Theorem save_then_delete_new (result : TranscriptionResult)
    (e1 e2 e3 : Env) (w : World) (l : list HistoryItem) :
  holds w l -> storage_ok e1 -> storage_ok e2 ->
  fault e3 P_getItem = None ->
  (forall h, h ∈ l -> id h <> id (make_item e1 result)) ->
  fst (getTranscriptionHistory e3
         (snd (deleteTranscription (id (make_item e1 result)) e2
                 (snd (saveTranscription result e1 w)))))
  = Val (records (take 99 l)) /\
  (take 99 l = l <-> (length l <= 99)%nat).
Proof.
  intros Hh Hok1 Hok2 He3 Hfresh. split.
  - apply get_holds; [exact He3|].
    pose proof (save_holds result e1 w l Hh Hok1) as H1.
    pose proof (delete_holds (id (make_item e1 result)) e2 _ _ H1 Hok2) as H2.
    assert (Hl : without (id (make_item e1 result))
                   (take 100 (make_item e1 result :: l)) = take 99 l).
    { change (take 100 (make_item e1 result :: l))
        with (make_item e1 result :: take 99 l).
      unfold without. rewrite filter_cons_False by tauto.
      apply without_absent. intros h Hin. apply Hfresh.
      exact (elem_of_sublist _ _ _ Hin (sublist_take l 99)). }
    rewrite Hl in H2. exact H2.
  - split.
    + intros H. rewrite <- H, length_take. lia.
    + apply take_ge.
Qed.

Lemma save_then_delete_new_witness :
  holds Samples.stocked Samples.stocked_list /\
  fst (getTranscriptionHistory Samples.quiet
         (snd (deleteTranscription
                 (id (make_item (Samples.at_time 3) Samples.long_talk))
                 Samples.quiet
                 (snd (saveTranscription Samples.long_talk (Samples.at_time 3)
                         Samples.stocked)))))
  = Val (records (take 99 Samples.stocked_list)).
Proof.
  assert (H : holds Samples.stocked Samples.stocked_list)
    by (vm_compute; reflexivity).
  split; [exact H|].
  apply (save_then_delete_new Samples.long_talk (Samples.at_time 3)
           Samples.quiet Samples.quiet Samples.stocked Samples.stocked_list H).
  - repeat split.
  - repeat split.
  - reflexivity.
  - intros h Hin. unfold Samples.stocked_list in Hin.
    apply elem_of_cons in Hin as [-> | Hin];
      [vm_compute; discriminate|].
    apply list_elem_of_singleton in Hin as ->. vm_compute. discriminate.
Defined.

(** X3. On a store that holds a list of records, and with the storage
    working, two deletes give the same list in either order, and a delete
    repeated gives what the first one gave. *)
Theorem delete_order_irrelevant (a b : jsstring) (e1 e2 e3 e4 e : Env)
    (w : World) (l : list HistoryItem) :
  holds w l -> storage_ok e1 -> storage_ok e2 -> storage_ok e3 ->
  storage_ok e4 -> fault e P_getItem = None ->
  fst (getTranscriptionHistory e
         (snd (deleteTranscription b e2 (snd (deleteTranscription a e1 w)))))
  = fst (getTranscriptionHistory e
           (snd (deleteTranscription a e4 (snd (deleteTranscription b e3 w)))))
  /\
  fst (getTranscriptionHistory e
         (snd (deleteTranscription a e2 (snd (deleteTranscription a e1 w)))))
  = fst (getTranscriptionHistory e (snd (deleteTranscription a e1 w))).
Proof.
  intros Hh H1 H2 H3 H4 He.
  pose proof (delete_holds a e1 w l Hh H1) as Ha.
  pose proof (delete_holds b e3 w l Hh H3) as Hb.
  rewrite (get_holds e _ _ He (delete_holds b e2 _ _ Ha H2)).
  rewrite (get_holds e _ _ He (delete_holds a e4 _ _ Hb H4)).
  rewrite (get_holds e _ _ He (delete_holds a e2 _ _ Ha H2)).
  rewrite (get_holds e _ _ He Ha).
  rewrite without_without, without_twice. auto.
Qed.

Lemma delete_order_irrelevant_witness :
  holds Samples.twins Samples.twins_list /\
  fst (getTranscriptionHistory Samples.quiet
         (snd (deleteTranscription Samples.first_id Samples.quiet
                 (snd (deleteTranscription
                         (id (make_item (Samples.at_time 2) (Samples.talk 2)))
                         Samples.quiet Samples.twins)))))
  = fst (getTranscriptionHistory Samples.quiet
           (snd (deleteTranscription
                   (id (make_item (Samples.at_time 2) (Samples.talk 2)))
                   Samples.quiet
                   (snd (deleteTranscription Samples.first_id Samples.quiet
                           Samples.twins))))).
Proof.
  assert (H : holds Samples.twins Samples.twins_list)
    by (vm_compute; reflexivity).
  split; [exact H|].
  apply (delete_order_irrelevant
           (id (make_item (Samples.at_time 2) (Samples.talk 2)))
           Samples.first_id Samples.quiet Samples.quiet Samples.quiet
           Samples.quiet Samples.quiet Samples.twins Samples.twins_list H);
    first [reflexivity | repeat split].
Defined.

(** X4. When the slot holds an array with a [null] element, reading
    [item.id] throws inside the filter: every delete returns normally and
    leaves the storage as it was, whatever the id. *)
Theorem delete_blocked_by_null (id0 : jsstring) (e : Env) (w : World)
    (s : jsstring) (l : list json) :
  fault e P_getItem = None ->
  slot w = Some s -> truthy s = true -> JSON_parse s = Some (JArr l) ->
  JNull ∈ l ->
  fst (deleteTranscription id0 e w) = Val tt /\
  localStorage (snd (deleteTranscription id0 e w)) = localStorage w.
Proof.
  intros He Hs Ht Hp Hin.
  assert (Hg : getTranscriptionHistory e w = (Val (JArr l), w))
    by (rewrite get_eval, He, Hs, Ht, Hp; reflexivity).
  rewrite (delete_eval id0 e w w _ Hg). cbn [filtered].
  rewrite (keep_all_null id0 l Hin). split; reflexivity.
Qed.

Lemma delete_blocked_by_null_witness :
  JSON_parse (js "[null]") = Some (JArr [JNull]) /\
  localStorage (snd (deleteTranscription Samples.first_id Samples.quiet
                       (Samples.with_slot (js "[null]"))))
  = localStorage (Samples.with_slot (js "[null]")).
Proof.
  assert (Hp : JSON_parse (js "[null]") = Some (JArr [JNull]))
    by (vm_compute; reflexivity).
  split; [exact Hp|].
  apply (delete_blocked_by_null Samples.first_id Samples.quiet
           (Samples.with_slot (js "[null]")) (js "[null]") [JNull]).
  - reflexivity.
  - vm_compute. reflexivity.
  - reflexivity.
  - exact Hp.
  - left.
Defined.

(** X5. Whatever the storage holds, a clear followed by a save (both with
    the storage working) leaves exactly the record of that save: a clear
    repairs a slot of any content. *)
Theorem clear_then_save (result : TranscriptionResult) (e1 e2 e3 : Env)
    (w : World) :
  fault e1 P_removeItem = None -> storage_ok e2 ->
  fault e3 P_getItem = None ->
  fst (getTranscriptionHistory e3
         (snd (saveTranscription result e2 (snd (clearAllHistory e1 w)))))
  = Val (records [make_item e2 result]).
Proof.
  intros H1 H2 H3. apply get_holds; [exact H3|].
  destruct (clear_storage e1 w) as (_ & Hs). rewrite H1 in Hs.
  exact (save_holds result e2 _ [] (holds_delete _ _ Hs) H2).
Qed.

Lemma clear_then_save_witness :
  fst (getTranscriptionHistory Samples.quiet
         (Samples.with_slot (js "null"))) = Val JNull /\
  fst (getTranscriptionHistory Samples.quiet
         (snd (saveTranscription Samples.long_talk Samples.quiet
                 (snd (clearAllHistory Samples.quiet
                         (Samples.with_slot (js "null")))))))
  = Val (records [make_item Samples.quiet Samples.long_talk]).
Proof.
  split; [vm_compute; reflexivity|].
  apply (clear_then_save Samples.long_talk Samples.quiet Samples.quiet
           Samples.quiet (Samples.with_slot (js "null")));
    first [reflexivity | repeat split].
Defined.

(** X6. No operation of the service reads or writes another key of the
    storage: whatever the storage holds and whichever primitives throw,
    the entry of every key other than the service's own is after each of
    the five operations what it was before. *)
Theorem other_keys_untouched (k : jsstring) (e : Env) (w : World)
    (result : TranscriptionResult) (id0 : jsstring) (item : HistoryItem) :
  k <> STORAGE_KEY ->
  localStorage (snd (saveTranscription result e w)) !! k = localStorage w !! k /\
  localStorage (snd (getTranscriptionHistory e w)) !! k = localStorage w !! k /\
  localStorage (snd (deleteTranscription id0 e w)) !! k = localStorage w !! k /\
  localStorage (snd (clearAllHistory e w)) !! k = localStorage w !! k /\
  localStorage (snd (downloadTranscription item e w)) !! k
  = localStorage w !! k.
Proof.
  intros Hk. repeat split.
  - destruct (save_storage_any result e w) as [-> | (text & ->)];
      [reflexivity|]. apply lookup_insert_ne. congruence.
  - rewrite get_storage. reflexivity.
  - destruct (delete_storage_any id0 e w) as [-> | (text & ->)];
      [reflexivity|]. apply lookup_insert_ne. congruence.
  - rewrite (proj2 (clear_storage e w)).
    destruct (fault e P_removeItem); [reflexivity|].
    apply lookup_delete_ne. congruence.
  - rewrite (proj2 (download_returns item e w)). reflexivity.
Qed.

Lemma other_keys_untouched_witness :
  js "theme" <> STORAGE_KEY /\
  localStorage PageSamples.themed !! js "theme" = Some (js "dark") /\
  localStorage (snd (clearAllHistory Samples.quiet PageSamples.themed))
    !! js "theme" = Some (js "dark").
Proof.
  assert (Hk : js "theme" <> STORAGE_KEY) by (vm_compute; discriminate).
  assert (Ht : localStorage PageSamples.themed !! js "theme"
               = Some (js "dark")) by (vm_compute; reflexivity).
  split; [exact Hk|]. split; [exact Ht|].
  destruct (other_keys_untouched (js "theme") Samples.quiet PageSamples.themed
              Samples.long_talk Samples.first_id
              (make_item Samples.quiet Samples.long_talk) Hk)
    as (_ & _ & _ & Hc & _).
  rewrite Hc. exact Ht.
Defined.

End MoreOfTheService.

Section MoreOfTheExport.

Lemma delete_dropped_on_non_array (id0 : jsstring) (e : Env) (w : World)
    (s : jsstring) (v : json) :
  fault e P_getItem = None -> slot w = Some s -> truthy s = true ->
  JSON_parse s = Some v -> iterate v = None ->
  localStorage (snd (deleteTranscription id0 e w)) = localStorage w.
Proof.
  intros He Hs Ht Hp Hi.
  assert (Hg : getTranscriptionHistory e w = (Val v, w))
    by (rewrite get_eval, He, Hs, Ht, Hp; reflexivity).
  rewrite (delete_eval id0 e w w v Hg).
  destruct v; try discriminate Hi; reflexivity.
Qed.

(** X7. When the slot holds valid JSON that cannot be spread (anything but
    an array or a string: [null], an object, a number, a boolean), every
    save and every delete that reads it is dropped: after any sequence of
    saves and deletes whose [getItem] works, the storage is as it was.
    Only a clear, or a save whose read fails, gets the store going
    again. *)
Theorem store_blocked_by_non_iterable (w : World) (s : jsstring) (v : json)
    (trace : list op) :
  slot w = Some s -> truthy s = true -> JSON_parse s = Some v ->
  iterate v = None ->
  Forall (fun o => match o with
                   | Save e _ | Delete e _ => fault e P_getItem = None
                   | Clear _ => False
                   end) trace ->
  localStorage (run w trace) = localStorage w.
Proof.
  intros Hs Ht Hp Hi Hall.
  induction trace as [|o trace IH] using rev_ind; [reflexivity|].
  apply Forall_app in Hall as [Hall Ho]. apply Forall_cons_1 in Ho as [Ho _].
  specialize (IH Hall). rewrite run_snoc.
  assert (Hs' : slot (run w trace) = Some s) by (unfold slot; rewrite IH; exact Hs).
  rewrite <- IH. destruct o as [e result|e id0|e]; cbn [step].
  - exact (proj2 (save_dropped_on_non_array result e _ s v Ho Hs' Ht Hp Hi)).
  - exact (delete_dropped_on_non_array id0 e _ s v Ho Hs' Ht Hp Hi).
  - contradiction.
Qed.

Lemma store_blocked_by_non_iterable_witness :
  JSON_parse (js "{}") = Some (JObj []) /\
  localStorage (run (Samples.with_slot (js "{}"))
                  [Save Samples.quiet Samples.long_talk;
                   Delete Samples.quiet Samples.first_id;
                   Save (Samples.at_time 2) (Samples.talk 2)])
  = localStorage (Samples.with_slot (js "{}")).
Proof.
  assert (Hp : JSON_parse (js "{}") = Some (JObj []))
    by (vm_compute; reflexivity).
  split; [exact Hp|].
  apply (store_blocked_by_non_iterable (Samples.with_slot (js "{}"))
           (js "{}") (JObj [])).
  - vm_compute. reflexivity.
  - reflexivity.
  - exact Hp.
  - reflexivity.
  - repeat constructor.
Defined.

(** X8. With the DOM working, an export registers one object URL for its
    blob and never revokes it: the URLs registered before are all still
    there afterwards, behind the new one. *)
Theorem export_keeps_object_url (item : HistoryItem) (e : Env) (w : World) :
  no_faults e ->
  object_urls (snd (downloadTranscription item e w)) =
  (blob_url e, {| blob_parts := [text item]; blob_type := js "text/plain" |})
    :: object_urls w.
Proof.
  intros Hnf.
  cbv [downloadTranscription try_catch bind guard document_createElement_a
       new_Blob URL_createObjectURL document_body_appendChild element_click
       document_body_removeChild console_log console_error console_write ret].
  rewrite !Hnf.
  cbn [object_urls set_object_urls set_body url_lookup href download body
       downloads set_downloads set_console].
  rewrite decide_True by reflexivity.
  cbn [object_urls set_object_urls set_body url_lookup href download body
       downloads set_downloads set_console].
  destruct (remove_first_snoc
              {| href := blob_url e;
                 download := strip_extension (fileName item) ++
                             js "_transcript.txt" |} (body w)) as (l' & ->).
  reflexivity.
Qed.

Lemma export_keeps_object_url_witness :
  no_faults Samples.quiet /\
  length (object_urls
            (snd (downloadTranscription
                    (make_item Samples.quiet (Samples.talk 1)) Samples.quiet
                    (snd (downloadTranscription
                            (make_item Samples.quiet (Samples.talk 2))
                            Samples.quiet Samples.stocked)))))
  = 2%nat.
Proof.
  assert (Hq : no_faults Samples.quiet) by (intros p; reflexivity).
  split; [exact Hq|].
  rewrite (export_keeps_object_url _ Samples.quiet _ Hq).
  rewrite (export_keeps_object_url _ Samples.quiet _ Hq).
  reflexivity.
Defined.

(** X9. When one of the DOM primitives used up to and including the click
    throws, an export returns normally and triggers no download. *)
Theorem export_fault_no_download (item : HistoryItem) (e : Env) (w : World)
    (p : primitive) (x : exn) :
  p ∈ [P_createElement; P_Blob; P_createObjectURL; P_appendChild; P_click] ->
  fault e p = Some x ->
  fst (downloadTranscription item e w) = Val tt /\
  downloads (snd (downloadTranscription item e w)) = downloads w.
Proof.
  intros Hp Hf.
  cbv [downloadTranscription try_catch bind guard document_createElement_a
       new_Blob URL_createObjectURL document_body_appendChild element_click
       document_body_removeChild console_log console_error console_write ret].
  repeat (apply elem_of_cons in Hp as [-> | Hp]);
    [| | | | |inversion Hp];
    rewrite ?Hf;
    repeat match goal with
           | |- context [fault e ?q] => destruct (fault e q)
           end; split; reflexivity.
Qed.

Lemma export_fault_no_download_witness :
  fault PageSamples.no_document P_createElement = Some DOMError /\
  fst (downloadTranscription (make_item Samples.quiet (Samples.talk 1))
         PageSamples.no_document Samples.stocked) = Val tt /\
  downloads (snd (downloadTranscription
                    (make_item Samples.quiet (Samples.talk 1))
                    PageSamples.no_document Samples.stocked))
  = downloads Samples.stocked.
Proof.
  split; [reflexivity|].
  apply (export_fault_no_download _ PageSamples.no_document Samples.stocked
           P_createElement DOMError); [left|reflexivity].
Defined.

End MoreOfTheExport.

(** ** Beyond the claims: the history page *)

Section HistoryPageFacts.

Lemma load_eval (st : HistoryPage.PageState) (e : Env) (w w1 : World)
    (v : json) :
  getTranscriptionHistory e w = (Val v, w1) ->
  HistoryPage.loadTranscriptions st e w =
  (Val {| HistoryPage.transcriptions := v;
          HistoryPage.searchTerm := HistoryPage.searchTerm st;
          HistoryPage.selectedTranscription :=
            HistoryPage.selectedTranscription st;
          HistoryPage.loading := false |}, w1).
Proof.
  intros Hg. cbv [HistoryPage.loadTranscriptions bind]. rewrite Hg.
  reflexivity.
Qed.

(** A filter or a search over records, with a callback that answers on
    each record without touching the world. *)
Lemma filterM_records (f : json -> M bool) (g : HistoryItem -> bool)
    (l : list HistoryItem) (e : Env) (w : World) :
  (forall h, f (item_json h) e w = (Val (g h), w)) ->
  filterM f (map item_json l) e w =
  (Val (map item_json (filter (fun h => g h = true) l)), w).
Proof.
  intros Hf. induction l as [|h l IH]; [reflexivity|].
  cbn [map filterM]. unfold bind at 1. rewrite Hf.
  unfold bind at 1. rewrite IH. rewrite filter_cons.
  destruct (g h); reflexivity.
Qed.





Lemma includes_empty (s : jsstring) : HistoryPage.includes s [] = true.
Proof. destruct s; reflexivity. Qed.

Lemma matches_search_record (toLowerCase : jsstring -> jsstring)
    (term : jsstring) (h : HistoryItem) (e : Env) (w : World) :
  HistoryPage.matches_search toLowerCase term (item_json h) e w =
  (Val (HistoryPage.includes (toLowerCase (fileName h)) (toLowerCase term) ||
        HistoryPage.includes (toLowerCase (preview h)) (toLowerCase term)),
   w).
Proof.
  unfold HistoryPage.matches_search.
  change (get_property (item_json h) (js "fileName"))
    with (@ret (option json) (Some (JStr (fileName h)))).
  change (get_property (item_json h) (js "preview"))
    with (@ret (option json) (Some (JStr (preview h)))).
  cbv [bind ret HistoryPage.lower_includes].
  destruct (HistoryPage.includes (toLowerCase (fileName h))
              (toLowerCase term)); reflexivity.
Qed.


End HistoryPageFacts.

Section TheHistoryPage.



(** X11. When the page has loaded a list of records, computing the list
    shown under the search bar never throws and leaves the world alone;
    the list shown holds, in their order, the records whose lower-cased
    file name or preview contains the lower-cased term, so it is a
    subsequence of the list loaded; and with an empty term (lower case of
    the empty string being empty) every record is shown. The full text of
    a record is not searched. *)
Theorem search_shows_matching_records
    (toLowerCase : jsstring -> jsstring) (st : HistoryPage.PageState)
    (l : list HistoryItem) (e : Env) (w : World) :
  HistoryPage.transcriptions st = records l ->
  HistoryPage.filteredTranscriptions toLowerCase st e w =
    (Val (map item_json
            (filter (HistoryPage.shown toLowerCase (HistoryPage.searchTerm st))
               l)), w) /\
  filter (HistoryPage.shown toLowerCase (HistoryPage.searchTerm st)) l
    `sublist_of` l /\
  (toLowerCase [] = [] -> HistoryPage.searchTerm st = [] ->
   filter (HistoryPage.shown toLowerCase (HistoryPage.searchTerm st)) l = l).
Proof.
  intros Ht. split; [|split].
  - unfold HistoryPage.filteredTranscriptions. rewrite Ht.
    cbn [records Array_filter].
    rewrite (filterM_records _ _ l e w
               (fun h => matches_search_record toLowerCase _ h e w)).
    rewrite (list_filter_iff _
               (HistoryPage.shown toLowerCase (HistoryPage.searchTerm st)));
      [reflexivity|].
    intros h. unfold HistoryPage.shown. apply orb_true_iff.
  - apply sublist_filter.
  - intros Hlow Hterm. rewrite Hterm. clear Ht.
    induction l as [|h l IH]; [reflexivity|].
    rewrite filter_cons_True; [f_equal; exact IH|].
    left. rewrite Hlow. apply includes_empty.
Qed.

Lemma search_shows_matching_records_witness :
  HistoryPage.transcriptions PageSamples.browsing
  = records Samples.stocked_list /\
  HistoryPage.filteredTranscriptions PageSamples.ascii_lower
    PageSamples.browsing Samples.quiet Samples.stocked
  = (Val [item_json (make_item (Samples.at_time 2) (Samples.talk 2))],
     Samples.stocked) /\
  PageSamples.ascii_lower [] = [].
Proof.
  split; [reflexivity|].
  destruct (search_shows_matching_records PageSamples.ascii_lower
              PageSamples.browsing Samples.stocked_list Samples.quiet
              Samples.stocked eq_refl) as (Hf & _ & _).
  split; [|reflexivity]. rewrite Hf. f_equal.
Defined.

End TheHistoryPage.

Section TheHistoryPageDetail.

(** X12. When the slot holds valid JSON that is not an array, loading the
    page returns normally and puts that value in the state; computing
    the list shown then throws a [TypeError], whatever the search term:
    nothing on the page catches it. *)
Theorem page_breaks_on_non_array (toLowerCase : jsstring -> jsstring)
    (st : HistoryPage.PageState) (e : Env) (w : World) (s : jsstring)
    (v : json) :
  fault e P_getItem = None -> slot w = Some s -> truthy s = true ->
  JSON_parse s = Some v -> is_sequence v = false ->
  exists st',
    HistoryPage.loadTranscriptions st e w = (Val st', w) /\
    HistoryPage.transcriptions st' = v /\
    forall term e' w',
      HistoryPage.filteredTranscriptions toLowerCase
        (HistoryPage.handleSearch term st') e' w'
      = (Throw TypeError, w').
Proof.
  intros He Hs Ht Hp Hv.
  assert (Hg : getTranscriptionHistory e w = (Val v, w))
    by (rewrite get_eval, He, Hs, Ht, Hp; reflexivity).
  eexists. split; [exact (load_eval st e w w v Hg)|].
  split; [reflexivity|]. intros term e' w'.
  unfold HistoryPage.filteredTranscriptions. cbn.
  destruct v; try discriminate Hv; reflexivity.
Qed.

Lemma page_breaks_on_non_array_witness :
  JSON_parse (js "null") = Some JNull /\
  exists st',
    HistoryPage.loadTranscriptions HistoryPage.initial Samples.quiet
      (Samples.with_slot (js "null"))
    = (Val st', Samples.with_slot (js "null")) /\
    HistoryPage.filteredTranscriptions PageSamples.ascii_lower st'
      Samples.quiet (Samples.with_slot (js "null"))
    = (Throw TypeError, Samples.with_slot (js "null")).
Proof.
  assert (Hp : JSON_parse (js "null") = Some JNull)
    by (vm_compute; reflexivity).
  split; [exact Hp|].
  destruct (page_breaks_on_non_array PageSamples.ascii_lower
              HistoryPage.initial Samples.quiet
              (Samples.with_slot (js "null")) (js "null") JNull)
    as (st' & Hl & Ht & Hf);
    [reflexivity|vm_compute; reflexivity|reflexivity|exact Hp|reflexivity|].
  exists st'. split; [exact Hl|].
  specialize (Hf (HistoryPage.searchTerm st') Samples.quiet
                (Samples.with_slot (js "null"))).
  destruct st'. exact Hf.
Defined.



End TheHistoryPageDetail.

(** ** Beyond the claims: the transcribe page *)

Section TheTranscribePage.

Lemma onDrop_resolved (api : TranscribePage.File -> TranscribePage.ApiReply)
    (file : TranscribePage.File) (rest : list TranscribePage.File)
    (r : TranscriptionResult) (st : TranscribePage.PageState) (e : Env)
    (w : World) :
  api file = TranscribePage.Resolved r ->
  TranscribePage.onDrop api (file :: rest) st e w =
  (Val {| TranscribePage.isUploading := false;
          TranscribePage.transcriptionResult := Some r;
          TranscribePage.error := None;
          TranscribePage.copied := TranscribePage.copied st |},
   snd (saveTranscription r e w)).
Proof.
  intros Ha. pose proof (proj1 (save_returns r e w)) as Hr.
  cbv [TranscribePage.onDrop]. rewrite Ha. cbv [bind try_catch ret].
  destruct (saveTranscription r e w) as [o w1]. cbn [fst] in Hr. subst o.
  reflexivity.
Qed.

(** X14. Whatever the API replies, whatever the storage holds and
    whichever primitives throw, [onDrop] on at least one file returns
    normally with the upload flag off. It shows an error exactly when the
    API rejected, and the result exactly when the API resolved: a save
    that fails is never reported. The world is touched only by the save
    of a resolved result, and not at all after a rejection. Only the
    first file counts. *)
Theorem onDrop_outcome (api : TranscribePage.File -> TranscribePage.ApiReply)
    (file : TranscribePage.File) (rest : list TranscribePage.File)
    (st : TranscribePage.PageState) (e : Env) (w : World) :
  exists st' w',
    TranscribePage.onDrop api (file :: rest) st e w = (Val st', w') /\
    TranscribePage.onDrop api [file] st e w = (Val st', w') /\
    TranscribePage.isUploading st' = false /\
    (TranscribePage.error st' = None <->
     exists r, api file = TranscribePage.Resolved r) /\
    (forall r, TranscribePage.transcriptionResult st' = Some r <->
               api file = TranscribePage.Resolved r) /\
    (forall r, api file = TranscribePage.Resolved r ->
               w' = snd (saveTranscription r e w)) /\
    ((forall r, api file <> TranscribePage.Resolved r) -> w' = w).
Proof.
  destruct (api file) as [r|m|] eqn:Ea.
  - rewrite (onDrop_resolved api file rest r st e w Ea),
      (onDrop_resolved api file [] r st e w Ea).
    eexists _, _. split; [reflexivity|]. split; [reflexivity|].
    cbn. split; [reflexivity|]. split; [split; eauto|].
    split; [intros r'; split; congruence|].
    split; [intros r' [= ->]; reflexivity|].
    intros H. destruct (H r). reflexivity.
  - cbv [TranscribePage.onDrop]. rewrite Ea. cbv [bind ret].
    eexists _, w. split; [reflexivity|]. split; [reflexivity|].
    cbn. split; [reflexivity|].
    split; [split; [discriminate|intros (r & Hr); discriminate Hr]|].
    split; [intros r; split; discriminate|].
    split; [intros r Hr; discriminate Hr|reflexivity].
  - cbv [TranscribePage.onDrop]. rewrite Ea. cbv [bind ret].
    eexists _, w. split; [reflexivity|]. split; [reflexivity|].
    cbn. split; [reflexivity|].
    split; [split; [discriminate|intros (r & Hr); discriminate Hr]|].
    split; [intros r; split; discriminate|].
    split; [intros r Hr; discriminate Hr|reflexivity].
Qed.

(** X15. When the API resolves, the store holds a list of records and
    the storage works, [onDrop] leaves the page showing the result and
    the history starting with the record of that result, followed by the
    first 99 records held before. *)
Theorem onDrop_saves_to_history
    (api : TranscribePage.File -> TranscribePage.ApiReply)
    (file : TranscribePage.File) (rest : list TranscribePage.File)
    (result : TranscriptionResult) (st : TranscribePage.PageState)
    (e e' : Env) (w : World) (l : list HistoryItem) :
  api file = TranscribePage.Resolved result ->
  holds w l -> storage_ok e -> fault e' P_getItem = None ->
  exists st' w',
    TranscribePage.onDrop api (file :: rest) st e w = (Val st', w') /\
    TranscribePage.transcriptionResult st' = Some result /\
    TranscribePage.error st' = None /\
    fst (getTranscriptionHistory e' w')
    = Val (records (make_item e result :: take 99 l)).
Proof.
  intros Ha Hh Hok He'.
  rewrite (onDrop_resolved api file rest result st e w Ha).
  eexists _, _. split; [reflexivity|]. split; [reflexivity|].
  split; [reflexivity|].
  exact (get_holds e' _ _ He' (save_holds result e w l Hh Hok)).
Qed.

Lemma onDrop_saves_to_history_witness :
  holds Samples.stocked Samples.stocked_list /\
  exists st' w',
    TranscribePage.onDrop PageSamples.api_ok [PageSamples.a_file]
      TranscribePage.initial (Samples.at_time 3) Samples.stocked
    = (Val st', w') /\
    TranscribePage.transcriptionResult st' = Some Samples.long_talk /\
    fst (getTranscriptionHistory Samples.quiet w')
    = Val (records (make_item (Samples.at_time 3) Samples.long_talk
                      :: take 99 Samples.stocked_list)).
Proof.
  assert (H : holds Samples.stocked Samples.stocked_list)
    by (vm_compute; reflexivity).
  split; [exact H|].
  destruct (onDrop_saves_to_history PageSamples.api_ok PageSamples.a_file []
              Samples.long_talk TranscribePage.initial (Samples.at_time 3)
              Samples.quiet Samples.stocked Samples.stocked_list eq_refl H)
    as (st' & w' & Heq & Hres & _ & Hlist);
    [repeat split|reflexivity|].
  exists st', w'. auto.
Defined.

(** X16. With the DOM working, the download of the transcribe page saves
    the text of the result under the file name as it is, followed by
    [_transcript.txt]: the extension is not removed. So for the record
    saved from the same result, the export of the history page triggers
    the same download exactly when the file name has no extension to
    remove. *)
Theorem page_download_keeps_extension (st : TranscribePage.PageState)
    (result : TranscriptionResult) (e e0 : Env) (w : World) :
  TranscribePage.transcriptionResult st = Some result ->
  no_faults e ->
  fst (TranscribePage.handleDownload st e w) = Val tt /\
  downloads (snd (TranscribePage.handleDownload st e w)) =
    downloads w ++
      [(r_fileName result ++ js "_transcript.txt",
        {| blob_parts := [r_text result]; blob_type := js "text/plain" |})] /\
  (downloads (snd (downloadTranscription (make_item e0 result) e w))
   = downloads (snd (TranscribePage.handleDownload st e w)) <->
   strip_extension (r_fileName result) = r_fileName result).
Proof.
  intros Hres Hnf.
  assert (Hd : TranscribePage.handleDownload st e w =
               (Val tt,
                snd (TranscribePage.handleDownload st e w)) /\
               downloads (snd (TranscribePage.handleDownload st e w)) =
               downloads w ++
                 [(r_fileName result ++ js "_transcript.txt",
                   {| blob_parts := [r_text result];
                      blob_type := js "text/plain" |})]).
  { unfold TranscribePage.handleDownload. rewrite Hres.
    cbv [bind guard document_createElement_a new_Blob URL_createObjectURL
         document_body_appendChild element_click document_body_removeChild
         ret].
    rewrite !Hnf.
    cbn [object_urls set_object_urls set_body url_lookup href download body
         downloads set_downloads set_console].
    rewrite decide_True by reflexivity.
    cbn [object_urls set_object_urls set_body url_lookup href download body
         downloads set_downloads set_console].
    destruct (remove_first_snoc
                {| href := blob_url e;
                   download := r_fileName result ++ js "_transcript.txt" |}
                (body w)) as (l' & ->).
    split; reflexivity. }
  destruct Hd as (Hv & Hd).
  split; [rewrite Hv; reflexivity|]. split; [exact Hd|].
  rewrite Hd, (download_eval (make_item e0 result) e w Hnf).
  cbn [fileName text make_item]. split.
  - intros H. apply app_inv_head in H. injection H as H.
    apply app_inv_tail in H. exact H.
  - intros ->. reflexivity.
Qed.

Lemma page_download_keeps_extension_witness :
  no_faults Samples.quiet /\
  downloads (snd (TranscribePage.handleDownload PageSamples.showing
                    Samples.quiet Samples.stocked))
  = [(js "talk.final.mp3_transcript.txt",
      {| blob_parts := [r_text (Samples.talk 1)];
         blob_type := js "text/plain" |})].
Proof.
  assert (Hq : no_faults Samples.quiet) by (intros p; reflexivity).
  split; [exact Hq|].
  destruct (page_download_keeps_extension PageSamples.showing (Samples.talk 1)
              Samples.quiet Samples.quiet Samples.stocked eq_refl Hq)
    as (_ & Hd & _).
  rewrite Hd. vm_compute. reflexivity.
Defined.

(** X17. The download of the transcribe page has no [try]: when a result
    is shown and one of the six DOM primitives throws, the handler throws
    (and leaves the storage alone), where the export of the history
    service returns normally in the same surroundings. *)
Theorem page_download_throws (st : TranscribePage.PageState)
    (result : TranscriptionResult) (item : HistoryItem) (e : Env) (w : World)
    (p : primitive) (x : exn) :
  TranscribePage.transcriptionResult st = Some result ->
  p ∈ [P_createElement; P_Blob; P_createObjectURL; P_appendChild; P_click;
       P_removeChild] ->
  fault e p = Some x ->
  (exists y, fst (TranscribePage.handleDownload st e w) = Throw y) /\
  localStorage (snd (TranscribePage.handleDownload st e w)) = localStorage w /\
  fst (downloadTranscription item e w) = Val tt.
Proof.
  intros Hres Hp Hf.
  split; [|split; [|exact (proj1 (download_returns item e w))]];
    unfold TranscribePage.handleDownload; rewrite Hres;
    cbv [bind guard document_createElement_a new_Blob URL_createObjectURL
         document_body_appendChild element_click document_body_removeChild
         ret];
    repeat (apply elem_of_cons in Hp as [-> | Hp]);
    try (inversion Hp; fail);
    rewrite ?Hf;
    repeat match goal with
           | |- context [fault e ?q] => destruct (fault e q)
           | |- context [url_lookup ?u ?h] => destruct (url_lookup u h)
           | |- context [remove_first ?a ?l] => destruct (remove_first a l)
           end;
    first [reflexivity | eexists; reflexivity].
Qed.

Lemma page_download_throws_witness :
  fault PageSamples.no_document P_createElement = Some DOMError /\
  (exists y, fst (TranscribePage.handleDownload PageSamples.showing
                    PageSamples.no_document Samples.stocked) = Throw y) /\
  fst (downloadTranscription (make_item Samples.quiet (Samples.talk 1))
         PageSamples.no_document Samples.stocked) = Val tt.
Proof.
  split; [reflexivity|].
  destruct (page_download_throws PageSamples.showing (Samples.talk 1)
              (make_item Samples.quiet (Samples.talk 1))
              PageSamples.no_document Samples.stocked P_createElement DOMError
              eq_refl) as (Ht & _ & Hv); [left|reflexivity|].
  split; assumption.
Defined.

End TheTranscribePage.

Section TheHistoryPageHandlers.

(** X18. Whatever the storage holds and whichever primitives throw, the
    handlers of the history page return normally: loading, deleting (which
    reloads) and downloading never throw, and a reload leaves the storage
    as the delete left it. *)
Theorem history_handlers_never_throw (st : HistoryPage.PageState)
    (id0 : jsstring) (item : HistoryItem) (e : Env) (w : World) :
  returns (HistoryPage.loadTranscriptions st e w) /\
  returns (HistoryPage.handleDelete id0 st e w) /\
  returns (HistoryPage.handleDownload item e w) /\
  localStorage (snd (HistoryPage.loadTranscriptions st e w))
  = localStorage w /\
  localStorage (snd (HistoryPage.handleDelete id0 st e w))
  = localStorage (snd (deleteTranscription id0 e w)).
Proof.
  unfold returns.
  destruct (get_pair e w) as (v & w1 & Hg & Hs).
  rewrite (load_eval st e w w1 v Hg).
  pose proof (proj1 (delete_returns id0 e w)) as Hr.
  destruct (deleteTranscription id0 e w) as [o w2] eqn:Ed.
  cbn [fst snd] in *. subst o.
  destruct (get_pair e w2) as (v2 & w3 & Hg2 & Hs2).
  assert (Hd : exists st', HistoryPage.handleDelete id0 st e w = (Val st', w3)).
  { unfold HistoryPage.handleDelete. cbv [bind ret].
    rewrite Ed, (load_eval st e w2 w3 v2 Hg2). eauto. }
  destruct Hd as (st' & ->).
  unfold HistoryPage.handleDownload.
  rewrite (proj1 (download_returns item e w)).
  cbn [fst snd]. auto.
Qed.

End TheHistoryPageHandlers.
